(** * The parquet query tools of the RCA example agent

    A shallow embedding of [libs/deepagents/examples/rca/tools.py]: the
    datetime normalisation, the token estimate, the size-budget guard, the
    file validation and the three tool functions, followed by the
    properties of the specification that they satisfy (or do not).

    Python values are modelled by an inductive type, Python [str] by the
    list of its code points, Python [int] by [Z], Python [float] by the
    binary64 instance of the Standard Library's [SpecFloat], exceptions by
    a sum type, and the world outside the module (file system, DuckDB, the
    formatting of floats and timestamps, the JSON parser) by a type class
    whose fields are the calls the module makes. *)

From Stdlib Require Import Strings.String.
From Stdlib Require Import ZArith List Lia Bool Ascii QArith Qround.
From Stdlib Require Import Floats.SpecFloat.
From stdpp Require Import base gmap sets list.
Local Open Scope Z_scope.

(* ================================================================== *)
(** ** Python strings *)
(* ================================================================== *)

(** A Python [str] is a sequence of Unicode code points; [len] counts
    code points. *)
Definition char := N.
Definition str := list char.

(** An ASCII literal of the source. *)
Definition lit (s : string) : str :=
  map N_of_ascii (list_ascii_of_string s).
Arguments lit : simpl never.

Definition NL : str := [10%N].          (* "\n" *)
Definition QUOTE : char := 34%N.        (* the double quote *)
Definition BACKSLASH : char := 92%N.
Definition BULLET : str := [8226%N].    (* U+2022, used in the suggestion text *)

(** [len(text)] *)
Definition len {A} (l : list A) : Z := Z.of_nat (length l).

(** [s.startswith(prefix)] *)
Fixpoint startswith (s prefix : str) {struct prefix} : bool :=
  match prefix, s with
  | [], _ => true
  | _ :: _, [] => false
  | p :: prefix', c :: s' => (p =? c)%N && startswith s' prefix'
  end.

(** [s.endswith(suffix)] *)
Definition endswith (s suffix : str) : bool :=
  startswith (rev s) (rev suffix).

(** [needle in hay] *)
Fixpoint str_contains (needle hay : str) : bool :=
  startswith hay needle ||
  match hay with
  | [] => false
  | _ :: hay' => str_contains needle hay'
  end.

(** [s.lower()] on the ASCII letters.  Code points outside ASCII are left
    as they are: Unicode lowering turns them into code points outside
    ASCII again, but for U+0130 and U+212A, which yield an [i] and a [k];
    the words searched for in a lowered text below hold neither letter,
    so the searches come out as they do in Python. *)
Definition lower_char (c : char) : char :=
  if ((65 <=? c) && (c <=? 90))%N then (c + 32)%N else c.
Definition lower (s : str) : str := map lower_char s.

(** [sep.join(parts)] *)
Fixpoint join (sep : str) (parts : list str) : str :=
  match parts with
  | [] => []
  | [p] => p
  | p :: rest => p ++ sep ++ join sep rest
  end.

(** Decimal digits of a natural number, least significant first. *)
Fixpoint digits_le (fuel : nat) (n : N) : list char :=
  match fuel with
  | O => []
  | S fuel' =>
      if (n <? 10)%N then [(48 + n)%N]
      else (48 + n mod 10)%N :: digits_le fuel' (n / 10)%N
  end.

Definition str_of_N (n : N) : str :=
  rev (digits_le (S (N.to_nat (N.log2 n))) n).

(** [str(i)] for a Python [int], also what an f-string prints for it. *)
Definition str_of_int (i : Z) : str :=
  if i <? 0 then lit "-" ++ str_of_N (Z.to_N (- i)) else str_of_N (Z.to_N i).

(** The number a list of decimal digits (least significant first) denotes. *)
Fixpoint digits_value (ds : list char) : N :=
  match ds with
  | [] => 0%N
  | d :: ds' => ((d - 48) + 10 * digits_value ds')%N
  end.

(* ================================================================== *)
(** ** Python floats: IEEE-754 binary64 *)
(* ================================================================== *)

Definition float := spec_float.

(** [float(i)]: the int rounded to the nearest double. *)
Definition float_of_int (i : Z) : float := binary_normalize 53 1024 i 0 false.

(** [a / b] on two positive ints: the correctly rounded quotient. *)
Definition int_truediv (a b : Z) : float :=
  SFdiv 53 1024 (binary_normalize 53 1024 a 0 false)
                (binary_normalize 53 1024 b 0 false).

Definition float_mul (x y : float) : float := SFmul 53 1024 x y.

(** The literal [0.8]: the double nearest to 4/5. *)
Definition float_0_8 : float := S754_finite false 7205759403792794 (-53).

(** [int(x)]: truncation toward zero.  Python raises on an infinity or a
    NaN; the guard below never produces one for a list that fits in
    memory, and the model returns 0 there. *)
Definition int_of_float (x : float) : Z :=
  match x with
  | S754_finite s m e =>
      let mag := if 0 <=? e then Z.shiftl (Z.pos m) e
                 else Z.shiftr (Z.pos m) (- e) in
      if s then - mag else mag
  | _ => 0
  end.

(* ================================================================== *)
(** ** Python values and exceptions *)
(* ================================================================== *)

(** [datetime.datetime]: the fields of the object; the offset is the UTC
    offset in seconds of an aware timestamp. *)
Record datetime := mk_datetime {
  dt_year : Z; dt_month : Z; dt_day : Z;
  dt_hour : Z; dt_minute : Z; dt_second : Z; dt_microsecond : Z;
  dt_utcoffset : option Z
}.

(** [datetime.date] that is not a [datetime] (a DATE column). *)
Record date := mk_date { d_year : Z; d_month : Z; d_day : Z }.

(** The objects the tools handle.  [VOther cls n] is an object of any
    other class (Decimal, bytes, time, timedelta, UUID, ...), named by
    its class; the json encoder knows none of them.  A tuple, which the
    encoder would write as an array, is not among these values: the
    tools build none, and a fetched row, which is one, is modelled apart
    as the list of its values. *)
#[warnings="-register-all"]
Inductive pyval :=
| VNone
| VBool (b : bool)
| VInt (i : Z)
| VFloat (x : float)
| VStr (s : str)
| VDatetime (d : datetime)
| VDate (d : date)
| VOther (cls : str) (n : N)
| VList (items : list pyval)
| VDict (items : list (pyval * pyval)).

(** [type(o).__name__] *)
Definition class_name (o : pyval) : str :=
  match o with
  | VNone => lit "NoneType"
  | VBool _ => lit "bool"
  | VInt _ => lit "int"
  | VFloat _ => lit "float"
  | VStr _ => lit "str"
  | VDatetime _ => lit "datetime"
  | VDate _ => lit "date"
  | VOther cls _ => cls
  | VList _ => lit "list"
  | VDict _ => lit "dict"
  end.

(** The values of a temporal type: timestamps and dates, and the time and
    interval objects among the other classes. *)
Definition is_temporal (o : pyval) : bool :=
  match o with
  | VDatetime _ | VDate _ => true
  | VOther cls _ =>
      bool_decide (cls = lit "time") || bool_decide (cls = lit "timedelta")
  | _ => false
  end.

Inductive exn_class :=
| FileNotFoundError
| TypeError
| IndexError
| UnboundLocalError
| OSError
| DuckDBError.

(** An exception: its class and [str(e)]. *)
Record exn := mk_exn { exn_cls : exn_class; exn_msg : str }.

(** How a call ends: with a value, or with an exception. *)
Inductive outcome (A : Type) :=
| Ok (a : A)
| Raise (e : exn).
Arguments Ok {A} a.
Arguments Raise {A} e.

#[export] Instance outcome_ret : MRet outcome := fun A a => Ok a.
#[export] Instance outcome_bind : MBind outcome := fun A B k r =>
  match r with
  | Ok a => k a
  | Raise e => Raise e
  end.

(** [d[key] = value] for a [str] key, on a dict kept in insertion order:
    an existing key keeps its place and takes the new value. *)
Definition key_is (key : str) (k : pyval) : bool :=
  match k with
  | VStr s => bool_decide (s = key)
  | _ => false
  end.

Fixpoint dict_set (d : list (pyval * pyval)) (key : str) (value : pyval)
    : list (pyval * pyval) :=
  match d with
  | [] => [(VStr key, value)]
  | (k, v) :: d' =>
      if key_is key k then (k, value) :: d'
      else (k, v) :: dict_set d' key value
  end.

(** [dict(zip(columns, row))] *)
Fixpoint dict_zip (columns : list str) (row : list pyval)
    (acc : list (pyval * pyval)) : list (pyval * pyval) :=
  match columns, row with
  | c :: columns', v :: row' => dict_zip columns' row' (dict_set acc c v)
  | _, _ => acc
  end.

(** [l[:stop]] for a Python int [stop]: a negative [stop] counts from the
    end. *)
Definition slice_to {A} (l : list A) (stop : Z) : list A :=
  if 0 <=? stop then firstn (Z.to_nat stop) l
  else firstn (Z.to_nat (len l + stop)) l.

(* ================================================================== *)
(** ** The world outside the module *)
(* ================================================================== *)

(** What the module calls and does not define: the standard library's
    formatting and parsing, the file system and the DuckDB connection.
    [json_loads_list] is [json.loads] on a text that starts with an opening
    bracket: the parsed items, or [None] for a [JSONDecodeError]; the
    texts [json.dumps] writes, which are those the query tool hands to
    the guard, give no other exception, and none is modelled.
    [repr_names] is what an f-string prints for [list(table_names)], in
    the iteration order of the set.  [os_path_exists] and [pathlib_exists]
    are the two existence checks, [os.path.exists(p)] and
    [Path(p).exists()]: the first answers False on every error of the
    operating system, the second answers False for a path that is not
    there and raises the OSError of any other failure (a name that is too
    long, a directory that may not be searched).  [path_stem] and
    [path_name] are [Path(p).stem] and [Path(p).name].  [conn_execute] runs a statement: it ends well or
    raises, and leaves the connection in a new state; [conn_fetchall] and
    [conn_description] read the rows (tuples, as lists) and the column
    names of the last statement. *)
Class World := {
  isoformat : datetime -> str;
  float_repr : float -> str;
  json_loads_list : str -> option (list pyval);
  repr_names : gset str -> str;
  os_path_exists : str -> bool;
  pathlib_exists : str -> outcome bool;
  path_stem : str -> str;
  path_name : str -> str;
  os_listdir : str -> outcome (list str);
  Conn : Type;
  duckdb_connect : Conn;
  conn_execute : Conn -> str -> outcome unit * Conn;
  conn_fetchall : Conn -> outcome (list (list pyval));
  conn_description : Conn -> list str
}.

(* ================================================================== *)
(** ** json.dumps(o, ensure_ascii=..., indent=2) *)
(* ================================================================== *)

Definition hex_digit (n : N) : char :=
  if (n <? 10)%N then (48 + n)%N else (87 + n)%N.

(** ['\\u{0:04x}'.format(n)] *)
Definition u_escape (n : N) : str :=
  [BACKSLASH; 117%N;
   hex_digit (n / 4096 mod 16); hex_digit (n / 256 mod 16);
   hex_digit (n / 16 mod 16); hex_digit (n mod 16)]%N.

(** The replacement of one character inside a JSON string. *)
Definition escape_char (ensure_ascii : bool) (c : char) : str :=
  if (c =? 34)%N then [BACKSLASH; QUOTE]
  else if (c =? 92)%N then [BACKSLASH; BACKSLASH]
  else if (c =? 10)%N then [BACKSLASH; 110%N]
  else if (c =? 13)%N then [BACKSLASH; 114%N]
  else if (c =? 9)%N then [BACKSLASH; 116%N]
  else if (c =? 8)%N then [BACKSLASH; 98%N]
  else if (c =? 12)%N then [BACKSLASH; 102%N]
  else if (c <? 32)%N then u_escape c
  else if ensure_ascii && (126 <? c)%N then
    if (c <? 65536)%N then u_escape c
    else
      let n := (c - 65536)%N in
      u_escape (N.lor 55296 (N.land (N.shiftr n 10) 1023)) ++
      u_escape (N.lor 56320 (N.land n 1023))
  else [c].

Definition encode_basestring (ensure_ascii : bool) (s : str) : str :=
  QUOTE :: flat_map (escape_char ensure_ascii) s ++ [QUOTE].

(** A newline followed by the indentation of a nesting level. *)
Definition newline_indent (level : nat) : str :=
  NL ++ concat (repeat (lit "  ") level).

Definition not_serializable (o : pyval) : exn :=
  mk_exn TypeError
    (lit "Object of type " ++ class_name o ++ lit " is not JSON serializable").

Section Tools.
Context `{W : World}.

(** The text of a dict key; a key of another class is a [TypeError].
    The limit CPython puts on the digits of an [int] it turns into text
    is not modelled, here or in the encoder. *)
Definition json_key (k : pyval) : outcome str :=
  match k with
  | VStr s => Ok s
  | VFloat x => Ok (float_repr x)
  | VBool true => Ok (lit "true")
  | VBool false => Ok (lit "false")
  | VNone => Ok (lit "null")
  | VInt i => Ok (str_of_int i)
  | _ => Raise (mk_exn TypeError
           (lit "keys must be str, int, float, bool or None, not "
            ++ class_name k))
  end.

Fixpoint json_encode (ensure_ascii : bool) (level : nat) (o : pyval)
    {struct o} : outcome str :=
  match o with
  | VStr s => Ok (encode_basestring ensure_ascii s)
  | VNone => Ok (lit "null")
  | VBool true => Ok (lit "true")
  | VBool false => Ok (lit "false")
  | VInt i => Ok (str_of_int i)
  | VFloat x => Ok (float_repr x)
  | VList [] => Ok (lit "[]")
  | VList items =>
      body ← (fix go (first : bool) (l : list pyval) : outcome str :=
                match l with
                | [] => Ok []
                | v :: l' =>
                    t ← json_encode ensure_ascii (S level) v;
                    rest ← go false l';
                    Ok ((if first then newline_indent (S level)
                         else lit "," ++ newline_indent (S level))
                        ++ t ++ rest)
                end) true items;
      Ok (lit "[" ++ body ++ newline_indent level ++ lit "]")
  | VDict [] => Ok (lit "{}")
  | VDict items =>
      body ← (fix go (first : bool) (l : list (pyval * pyval)) : outcome str :=
                match l with
                | [] => Ok []
                | (k, v) :: l' =>
                    key ← json_key k;
                    t ← json_encode ensure_ascii (S level) v;
                    rest ← go false l';
                    Ok ((if first then newline_indent (S level)
                         else lit "," ++ newline_indent (S level))
                        ++ encode_basestring ensure_ascii key ++ lit ": "
                        ++ t ++ rest)
                end) true items;
      Ok (lit "{" ++ body ++ newline_indent level ++ lit "}")
  | _ => Raise (not_serializable o)
  end.

Definition json_dumps (ensure_ascii : bool) (o : pyval) : outcome str :=
  json_encode ensure_ascii 0 o.

(* ================================================================== *)
(** ** tools.py *)
(* ================================================================== *)

Definition TOKEN_LIMIT : Z := 5000.

(** Convert datetime objects to ISO format strings for JSON
    serialization. *)
Fixpoint _serialize_datetime (obj : pyval) : pyval :=
  match obj with
  | VDatetime d => VStr (isoformat d)
  | VDict items =>
      VDict (map (fun '(key, value) => (key, _serialize_datetime value)) items)
  | VList items => VList (map _serialize_datetime items)
  | _ => obj
  end.

(** Estimate token count using character-based approximation. *)
Definition _estimate_token_count (text : str) : Z :=
  let average_chars_per_token := 3 in
  (len text + average_chars_per_token - 1) / average_chars_per_token.

(** [len(json.loads(payload)) if payload.startswith("[") else None], with
    [None] also for a [JSONDecodeError]. *)
Definition current_size_of (payload : str) : option Z :=
  if startswith payload (lit "[") then
    match json_loads_list payload with
    | Some items => Some (len items)
    | None => None
    end
  else None.

(** Lines 38-41: the suggested LIMIT, computed in floating point. *)
Definition suggested_limit_of (current_size : option Z) (token_estimate : Z)
    : option Z :=
  match current_size with
  | Some n =>
      if n =? 0 then None
      else
        let ratio := int_truediv TOKEN_LIMIT token_estimate in
        Some (Z.max 1
                (int_of_float
                   (float_mul (float_mul (float_of_int n) ratio) float_0_8)))
  | None => None
  end.

Definition opt_int (o : option Z) : pyval :=
  match o with
  | Some i => VInt i
  | None => VNone
  end.

Definition suggestion_parts (suggested_limit : option Z) : list str :=
  [ lit "The query result is too large. Please adjust your query:";
    lit "  " ++ BULLET ++ lit " Reduce the LIMIT value" ++
      match suggested_limit with
      | Some l => lit " (try LIMIT " ++ str_of_int l ++ lit ")"
      | None => []
      end;
    lit "  " ++ BULLET ++
      lit " Filter rows with WHERE clauses to reduce result size";
    lit "  " ++ BULLET ++
      lit " Select only necessary columns instead of SELECT *";
    lit "  " ++ BULLET ++
      lit " Use aggregation (COUNT, SUM, AVG) instead of retrieving raw rows" ].

(** The dict [warning] of lines 51-59. *)
Definition warning (context : str) (token_estimate : Z)
    (current_size suggested_limit : option Z) : pyval :=
  VDict
    [ (VStr (lit "error"), VStr (lit "Result exceeds token budget"));
      (VStr (lit "context"), VStr context);
      (VStr (lit "estimated_tokens"), VInt token_estimate);
      (VStr (lit "token_limit"), VInt TOKEN_LIMIT);
      (VStr (lit "rows_returned"), opt_int current_size);
      (VStr (lit "suggested_limit"), opt_int suggested_limit);
      (VStr (lit "suggestion"),
       VStr (join NL (suggestion_parts suggested_limit))) ].

(** Ensure payload stays within the token budget before returning. *)
Definition _enforce_token_limit (payload context : str) : outcome str :=
  let token_estimate := _estimate_token_count payload in
  if token_estimate <=? TOKEN_LIMIT then Ok payload
  else
    let current_size := current_size_of payload in
    let suggested_limit := suggested_limit_of current_size token_estimate in
    json_dumps false
      (warning context token_estimate current_size suggested_limit).

(** The argument [parquet_files : Union[str, List[str]]]. *)
Inductive path_arg :=
| OnePath (p : str)
| PathList (l : list str).

Definition not_found_message (file_path : str) : str :=
  lit "Parquet file not found: " ++ file_path ++ NL ++
  lit "Please check the file path and ensure the file exists. " ++
  lit "You may use 'list_tables_in_directory' to discover available parquet files.".

(** The loop of lines 67-74. *)
Fixpoint check_files (files : list str) : outcome unit :=
  match files with
  | [] => Ok ()
  | file_path :: rest =>
      if negb (os_path_exists file_path) then
        found ← pathlib_exists file_path;
        if negb found then
          Raise (mk_exn FileNotFoundError (not_found_message file_path))
        else check_files rest
      else check_files rest
  end.

(** Lines 64-65: a single path is a list of one. *)
Definition as_list (parquet_files : path_arg) : list str :=
  match parquet_files with
  | OnePath p => [p]
  | PathList l => l
  end.

(** Validate parquet files exist and return as list. *)
Definition _validate_parquet_files (parquet_files : path_arg)
    : outcome (list str) :=
  let parquet_files := as_list parquet_files in
  _ ← check_files parquet_files;
  Ok parquet_files.

(** List all parquet files in the given directory. *)
Definition list_tables_in_directory (directory : str) : outcome str :=
  let body : outcome str :=
    if negb (os_path_exists directory) then
      Ok (lit "Error: Directory '" ++ directory ++ lit "' does not exist.")
    else
      names ← os_listdir directory;
      let files := filter (fun f => endswith f (lit ".parquet") = true) names in
      json_dumps true (VList (map VStr files)) in
  match body with
  | Ok text => Ok text
  | Raise e => Ok (lit "Error listing files: " ++ exn_msg e)
  end.

(** [r[i]] on a result row. *)
Definition row_index (r : list pyval) (i : nat) : outcome pyval :=
  match nth_error r i with
  | Some v => Ok v
  | None => Raise (mk_exn IndexError (lit "tuple index out of range"))
  end.

Definition column_entry (r : list pyval) : outcome pyval :=
  name ← row_index r 0;
  type ← row_index r 1;
  Ok (VDict [ (VStr (lit "column_name"), name);
              (VStr (lit "column_type"), type) ]).

(** The loop of lines 111-120: one entry per file, an error text in place
    of the columns when reading that file fails. *)
Fixpoint describe_files (conn : Conn) (schemas : list (pyval * pyval))
    (files : list str) : list (pyval * pyval) :=
  match files with
  | [] => schemas
  | file_path :: rest =>
      let file_name := path_name file_path in
      let query :=
        lit "DESCRIBE SELECT * FROM read_parquet('" ++ file_path ++ lit "')" in
      let '(executed, conn) := conn_execute conn query in
      let attempt : outcome pyval :=
        _ ← executed;
        result ← conn_fetchall conn;
        columns ← mapM column_entry result;
        Ok (VList columns) in
      let entry :=
        match attempt with
        | Ok columns => columns
        | Raise e => VStr (lit "Error reading schema: " ++ exn_msg e)
        end in
      describe_files conn (dict_set schemas file_name entry) rest
  end.

(** Get the schema (column names and types) of parquet file(s). *)
Definition get_schema (parquet_files : path_arg) : outcome str :=
  let body : outcome str :=
    parquet_files ← _validate_parquet_files parquet_files;
    let conn := duckdb_connect in
    let schemas := describe_files conn [] parquet_files in
    json_dumps true (VDict schemas) in
  match body with
  | Ok text => Ok text
  | Raise e => Ok (lit "Error getting schema: " ++ exn_msg e)
  end.

(** The [while] loop of lines 151-153.  Each round costs one unit of
    fuel; [None] is a loop that has not finished within the fuel. *)
Fixpoint dedup_loop (fuel : nat) (table_names : gset str)
    (base_name table_name : str) (counter : Z) : option str :=
  if bool_decide (table_name ∈ table_names) then
    match fuel with
    | O => None
    | S fuel' =>
        dedup_loop fuel' table_names base_name
          (base_name ++ lit "_" ++ str_of_int counter) (counter + 1)
    end
  else Some table_name.

(** Lines 148-153: the name under which a file is bound, given the names
    bound so far.  One more round than there are names always finishes
    the loop ([dedup_loop_finishes] below), so the default is never
    taken. *)
Definition bind_name (table_names : gset str) (file_path : str) : str :=
  let base_name := path_stem file_path in
  default base_name
    (dedup_loop (S (size table_names)) table_names base_name base_name 1).

Definition create_view_sql (table_name file_path : str) : str :=
  lit "CREATE VIEW " ++ table_name ++
  lit " AS SELECT * FROM read_parquet('" ++ file_path ++ lit "')".

(** The loop of lines 147-156.  The set of names is returned on every
    path: an exception leaves it as it was when the statement failed. *)
Fixpoint register_views (conn : Conn) (table_names : gset str)
    (files : list str) : outcome Conn * gset str :=
  match files with
  | [] => (Ok conn, table_names)
  | file_path :: rest =>
      let table_name := bind_name table_names file_path in
      let table_names := {[ table_name ]} ∪ table_names in
      match conn_execute conn (create_view_sql table_name file_path) with
      | (Ok _, conn) => register_views conn table_names rest
      | (Raise e, _) => (Raise e, table_names)
      end
  end.

(** The names the loop binds, in input order. *)
Fixpoint relation_names (table_names : gset str) (files : list str)
    : list str :=
  match files with
  | [] => []
  | file_path :: rest =>
      let table_name := bind_name table_names file_path in
      table_name :: relation_names ({[ table_name ]} ∪ table_names) rest
  end.

Definition no_results_text : str :=
  lit "Query executed successfully but returned no results.".

Definition list_items (o : pyval) : list pyval :=
  match o with
  | VList items => items
  | _ => []
  end.

(** Lines 163-171, once the query has produced rows. *)
Definition render_rows (columns : list str) (result : list (list pyval))
    (limit : Z) : outcome str :=
  let rows := map (fun row => VDict (dict_zip columns row [])) result in
  let serialized_rows := list_items (_serialize_datetime (VList rows)) in
  let serialized_rows :=
    if limit <? len serialized_rows then slice_to serialized_rows limit
    else serialized_rows in
  result_json ← json_dumps false (VList serialized_rows);
  _enforce_token_limit result_json (lit "query_parquet_files").

(** The body of the [try] of [query_parquet_files], with the local
    [table_names] as it is when the body ends or raises: [None] while the
    name is not yet assigned. *)
Definition query_body (parquet_files : path_arg) (query : str) (limit : Z)
    : outcome str * option (gset str) :=
  match _validate_parquet_files parquet_files with
  | Raise e => (Raise e, None)
  | Ok parquet_files =>
      let conn := duckdb_connect in
      let table_names : gset str := ∅ in
      match register_views conn table_names parquet_files with
      | (Raise e, table_names) => (Raise e, Some table_names)
      | (Ok conn, table_names) =>
          let answer : outcome str :=
            let '(executed, conn) := conn_execute conn query in
            _ ← executed;
            result ← conn_fetchall conn;
            match result with
            | [] => Ok no_results_text
            | _ => render_rows (conn_description conn) result limit
            end in
          (answer, Some table_names)
      end
  end.

(** Reading a local variable of the function. *)
Definition read_local {A} (name : str) (v : option A) : outcome A :=
  match v with
  | Some a => Ok a
  | None =>
      Raise (mk_exn UnboundLocalError
               (lit "cannot access local variable '" ++ name ++
                lit "' where it is not associated with a value"))
  end.

(** The [except Exception] clause of lines 173-184. *)
Definition query_handler (e : exn) (table_names : option (gset str))
    (query : str) : outcome str :=
  let error_msg := exn_msg e in
  if str_contains (lit "syntax error") (lower error_msg)
     || str_contains (lit "parser error") (lower error_msg) then
    names ← read_local (lit "table_names") table_names;
    Ok (lit "SQL syntax error: " ++ error_msg ++ NL ++
        lit "Query: " ++ query ++ NL ++
        lit "Available tables: " ++ repr_names names)
  else if str_contains (lit "catalog") (lower error_msg)
          || str_contains (lit "table") (lower error_msg) then
    names ← read_local (lit "table_names") table_names;
    Ok (lit "Table reference error: " ++ error_msg ++ NL ++
        lit "Available tables: " ++ repr_names names)
  else Ok (lit "Query execution failed: " ++ error_msg).

(** Query parquet files using SQL syntax for data analysis and
    exploration.  [Ok] is the text returned to the caller, [Raise] an
    exception that leaves the function. *)
Definition query_parquet_files (parquet_files : path_arg) (query : str)
    (limit : Z) : outcome str :=
  match query_body parquet_files query limit with
  | (Ok text, _) => Ok text
  | (Raise e, table_names) => query_handler e table_names query
  end.

(** The default of the parameter [limit]. *)
Definition default_limit : Z := 50.

End Tools.

(* ================================================================== *)
(** ** A small world for the examples *)
(* ================================================================== *)

(** Two parquet files in a directory [data], a POSIX file system, and an
    engine that answers a handful of queries over them.  The examples and
    counterexamples below run the tools in this world. *)
Module Example.

Definition files_on_disk : list str :=
  [ lit "data"; lit "data/events.parquet"; lit "data/long.parquet";
    lit "data/wide.parquet" ].

Definition on_disk (p : str) : bool := bool_decide (p ∈ files_on_disk).

(** The components of a POSIX path. *)
Fixpoint split_path (p cur : str) : list str :=
  match p with
  | [] => [rev cur]
  | c :: p' =>
      if (c =? 47)%N then rev cur :: split_path p' []
      else split_path p' (c :: cur)
  end.

(** [PurePosixPath(p).name] *)
Definition posix_name (p : str) : str :=
  let parts :=
    filter (fun part => part ≠ [] ∧ part ≠ lit ".") (split_path p []) in
  List.last parts [].

(** [name.rfind('.')], counted from the end of the name. *)
Fixpoint dot_from_end (rev_name : str) : option nat :=
  match rev_name with
  | [] => None
  | c :: rest =>
      if (c =? 46)%N then Some O
      else option_map S (dot_from_end rest)
  end.

(** [PurePosixPath(p).stem]: the name up to its last dot, when that dot is
    neither the first nor the last character. *)
Definition posix_stem (p : str) : str :=
  let name := posix_name p in
  match dot_from_end (rev name) with
  | Some k =>
      let i := (length name - 1 - k)%nat in
      if ((0 <? i) && (0 <? k))%nat then firstn i name else name
  | None => name
  end.

Definition pad (width : nat) (i : Z) : str :=
  let digits := str_of_int i in
  repeat 48%N (width - length digits) ++ digits.

(** [d.isoformat()] of a naive timestamp, or of one with a whole-minute
    UTC offset. *)
Definition iso (d : datetime) : str :=
  pad 4 (dt_year d) ++ lit "-" ++ pad 2 (dt_month d) ++ lit "-" ++
  pad 2 (dt_day d) ++ lit "T" ++ pad 2 (dt_hour d) ++ lit ":" ++
  pad 2 (dt_minute d) ++ lit ":" ++ pad 2 (dt_second d) ++
  (if dt_microsecond d =? 0 then []
   else lit "." ++ pad 6 (dt_microsecond d)) ++
  match dt_utcoffset d with
  | None => []
  | Some off =>
      (if off <? 0 then lit "-" else lit "+") ++
      pad 2 (Z.abs off / 3600) ++ lit ":" ++ pad 2 (Z.abs off / 60 mod 60)
  end.

(** [json.loads] on the texts of the examples: null, true, false,
    integers, strings, arrays and objects.  Numbers with a fraction or an
    exponent, which no example contains, are not read. *)
Definition is_blank (c : char) : bool :=
  ((c =? 32) || (c =? 9) || (c =? 10) || (c =? 13))%N.

Definition is_digit (c : char) : bool := ((48 <=? c) && (c <=? 57))%N.

Fixpoint skip_blanks (s : str) : str :=
  match s with
  | c :: s' => if is_blank c then skip_blanks s' else s
  | [] => []
  end.

Definition hex_value (c : char) : option N :=
  if is_digit c then Some (c - 48)%N
  else if ((97 <=? c) && (c <=? 102))%N then Some (c - 87)%N
  else if ((65 <=? c) && (c <=? 70))%N then Some (c - 55)%N
  else None.

(** The characters of a string up to its closing quote, escapes
    decoded, and the text after the quote. *)
Fixpoint parse_string (s acc : str) : option (str * str) :=
  match s with
  | [] => None
  | c :: s' =>
      if (c =? 34)%N then Some (rev acc, s')
      else if (c <? 32)%N then None
      else if (c =? 92)%N then
        match s' with
        | e :: s'' =>
            if (e =? 117)%N then
              match s'' with
              | h1 :: h2 :: h3 :: h4 :: s3 =>
                  match hex_value h1, hex_value h2, hex_value h3,
                        hex_value h4 with
                  | Some a, Some b, Some c', Some d =>
                      parse_string s3
                        ((4096 * a + 256 * b + 16 * c' + d)%N :: acc)
                  | _, _, _, _ => None
                  end
              | _ => None
              end
            else
              let plain :=
                if (e =? 110)%N then Some 10%N
                else if (e =? 116)%N then Some 9%N
                else if (e =? 114)%N then Some 13%N
                else if (e =? 98)%N then Some 8%N
                else if (e =? 102)%N then Some 12%N
                else if ((e =? 34) || (e =? 92) || (e =? 47))%N then Some e
                else None in
              match plain with
              | Some c' => parse_string s'' (c' :: acc)
              | None => None
              end
        | [] => None
        end
      else parse_string s' (c :: acc)
  end.

Fixpoint parse_digits (s : str) (n : Z) : Z * str :=
  match s with
  | c :: s' =>
      if is_digit c then parse_digits s' (10 * n + Z.of_N (c - 48)) else (n, s)
  | [] => (n, [])
  end.

(** An integer without a leading zero, not followed by a fraction or an
    exponent. *)
Definition parse_int (s : str) : option (Z * str) :=
  match s with
  | c :: s' =>
      if is_digit c then
        let '(n, rest) := if (c =? 48)%N then (0, s') else parse_digits s 0 in
        match rest with
        | d :: _ =>
            if is_digit d || (d =? 46)%N || (d =? 101)%N || (d =? 69)%N
            then None else Some (n, rest)
        | [] => Some (n, rest)
        end
      else None
  | [] => None
  end.

Fixpoint parse_value (fuel : nat) (s : str) : option (pyval * str) :=
  match fuel with
  | O => None
  | S fuel' =>
      let items :=
        fix items (n : nat) (s : str) : option (list pyval * str) :=
          match n with
          | O => None
          | S n' =>
              match parse_value fuel' s with
              | Some (v, r) =>
                  match skip_blanks r with
                  | c :: r' =>
                      if (c =? 44)%N then
                        match items n' r' with
                        | Some (vs, r'') => Some (v :: vs, r'')
                        | None => None
                        end
                      else if (c =? 93)%N then Some ([v], r')
                      else None
                  | [] => None
                  end
              | None => None
              end
          end in
      let members :=
        fix members (n : nat) (s : str) (acc : list (pyval * pyval))
            : option (list (pyval * pyval) * str) :=
          match n with
          | O => None
          | S n' =>
              match skip_blanks s with
              | q :: s1 =>
                  if (q =? 34)%N then
                    match parse_string s1 [] with
                    | Some (key, s2) =>
                        match skip_blanks s2 with
                        | colon :: s3 =>
                            if (colon =? 58)%N then
                              match parse_value fuel' s3 with
                              | Some (v, r) =>
                                  let acc := dict_set acc key v in
                                  match skip_blanks r with
                                  | c :: r' =>
                                      if (c =? 44)%N then members n' r' acc
                                      else if (c =? 125)%N then Some (acc, r')
                                      else None
                                  | [] => None
                                  end
                              | None => None
                              end
                            else None
                        | [] => None
                        end
                    | None => None
                    end
                  else None
              | [] => None
              end
          end in
      match skip_blanks s with
      | [] => None
      | c :: rest =>
          if (c =? 34)%N then
            match parse_string rest [] with
            | Some (text, rest') => Some (VStr text, rest')
            | None => None
            end
          else if (c =? 91)%N then
            match skip_blanks rest with
            | d :: rest' =>
                if (d =? 93)%N then Some (VList [], rest')
                else
                  match items fuel' rest with
                  | Some (vs, r) => Some (VList vs, r)
                  | None => None
                  end
            | [] => None
            end
          else if (c =? 123)%N then
            match skip_blanks rest with
            | d :: rest' =>
                if (d =? 125)%N then Some (VDict [], rest')
                else
                  match members fuel' rest [] with
                  | Some (kvs, r) => Some (VDict kvs, r)
                  | None => None
                  end
            | [] => None
            end
          else if startswith (c :: rest) (lit "null") then
            Some (VNone, skipn 4 (c :: rest))
          else if startswith (c :: rest) (lit "true") then
            Some (VBool true, skipn 4 (c :: rest))
          else if startswith (c :: rest) (lit "false") then
            Some (VBool false, skipn 5 (c :: rest))
          else if (c =? 45)%N then
            match parse_int rest with
            | Some (n, r) => Some (VInt (- n), r)
            | None => None
            end
          else
            match parse_int (c :: rest) with
            | Some (n, r) => Some (VInt n, r)
            | None => None
            end
      end
  end.

Definition loads_list (text : str) : option (list pyval) :=
  match parse_value (S (length text)) text with
  | Some (VList items, rest) =>
      match skip_blanks rest with
      | [] => Some items
      | _ => None
      end
  | _ => None
  end.

(** The engine: the rows and column names of the last statement. *)
Record conn := mk_conn {
  last_rows : list (list pyval);
  last_columns : list str
}.

Definition noon : datetime := mk_datetime 2025 7 23 14 10 23 0 None.

Definition events_columns : list str := [ lit "id"; lit "ts" ].
Definition events_rows : list (list pyval) :=
  [ [VInt 1; VDatetime noon]; [VInt 2; VDatetime noon];
    [VInt 3; VDatetime noon] ].

Definition days_columns : list str := [ lit "id"; lit "day" ].
Definition days_rows : list (list pyval) :=
  [ [VInt 1; VDate (mk_date 2025 7 23)] ].

Definition wide_columns : list str := [ lit "id"; lit "text" ].
Definition wide_rows : list (list pyval) :=
  map (fun i => [VInt (Z.of_nat i); VStr (repeat 120%N 400)]) (seq 0 60).

(** 77 rows whose serialisation has 28875 characters. *)
Definition long_columns : list str := [ lit "id"; lit "text" ].
Definition long_rows : list (list pyval) :=
  map (fun i => [VInt (Z.of_nat i);
                 VStr (repeat 120%N (if (i <? 8)%nat then 338 else 337))])
      (seq 0 77).

Definition q_events : str := lit "SELECT * FROM events".
Definition q_long : str := lit "SELECT * FROM long".
Definition q_nothing : str := lit "SELECT * FROM events WHERE id < 0".
Definition q_days : str := lit "SELECT id, day FROM events".
Definition q_wide : str := lit "SELECT * FROM wide".

Definition execute (c : conn) (sql : str) : outcome unit * conn :=
  if startswith sql (lit "CREATE VIEW ") then (Ok (), c)
  else if bool_decide (sql = q_events) then
    (Ok (), mk_conn events_rows events_columns)
  else if bool_decide (sql = q_nothing) then (Ok (), mk_conn [] events_columns)
  else if bool_decide (sql = q_days) then
    (Ok (), mk_conn days_rows days_columns)
  else if bool_decide (sql = q_wide) then
    (Ok (), mk_conn wide_rows wide_columns)
  else if bool_decide (sql = q_long) then
    (Ok (), mk_conn long_rows long_columns)
  else
    (Raise (mk_exn DuckDBError
              (lit "Parser Error: syntax error at or near " ++ sql)), c).

Definition listdir (directory : str) : outcome (list str) :=
  if bool_decide (directory = lit "data") then
    Ok [ lit "events.parquet"; lit "long.parquet"; lit "notes.txt";
         lit "wide.parquet" ]
  else
    Raise (mk_exn OSError (lit "[Errno 20] Not a directory: " ++ directory)).

Definition show_names (names : gset str) : str :=
  lit "[" ++
  join (lit ", ") (map (fun n => lit "'" ++ n ++ lit "'") (elements names)) ++
  lit "]".

(** A list of 77 numbers, padded with blanks to 28875 characters. *)
Definition seventy_seven : str :=
  lit "[" ++ concat (repeat (lit "1, ") 76) ++ lit "1" ++
  repeat 32%N (Z.to_nat 28644) ++ lit "]".

(** An empty list, padded with blanks to 15003 characters. *)
Definition padded_empty : str := lit "[" ++ repeat 32%N (Z.to_nat 15001) ++ lit "]".

#[export] Instance world : World := {|
  isoformat := iso;
  float_repr := fun _ => lit "0.0";
  json_loads_list := loads_list;
  repr_names := show_names;
  os_path_exists := on_disk;
  pathlib_exists := fun p => Ok (on_disk p);
  path_stem := posix_stem;
  path_name := posix_name;
  os_listdir := listdir;
  Conn := conn;
  duckdb_connect := mk_conn [] [];
  conn_execute := execute;
  conn_fetchall := fun c => Ok (last_rows c);
  conn_description := last_columns
|}.

(** The inputs of the examples. *)
Definition events_file : path_arg := OnePath (lit "data/events.parquet").
Definition wide_file : path_arg := OnePath (lit "data/wide.parquet").
Definition long_file : path_arg := OnePath (lit "data/long.parquet").
Definition missing_file : path_arg := OnePath (lit "data/missing.parquet").
Definition tool_context : str := lit "query_parquet_files".
Definition three_events : list str :=
  [ lit "a/events.parquet"; lit "b/events.parquet"; lit "events.parquet" ].

End Example.

(* ================================================================== *)
(** ** Positions inside a value *)
(* ================================================================== *)

(** The value reached from [obj] by a path of positions: the i-th item of
    a list, or the value of the i-th entry of a dict. *)
Fixpoint value_at (path : list nat) (obj : pyval) : option pyval :=
  match path with
  | [] => Some obj
  | i :: path' =>
      match obj with
      | VList items => item ← items !! i; value_at path' item
      | VDict items => entry ← items !! i; value_at path' entry.2
      | _ => None
      end
  end.

(** A datetime that [_serialize_datetime] reaches: the object itself, an
    item of a list or a value of a dict, at any depth. *)
Fixpoint has_datetime (obj : pyval) : bool :=
  match obj with
  | VDatetime _ => true
  | VList items => existsb has_datetime items
  | VDict items => existsb (fun '(_, value) => has_datetime value) items
  | _ => false
  end.

(** Neither a datetime nor a container. *)
Definition is_plain (obj : pyval) : bool :=
  match obj with
  | VDatetime _ | VList _ | VDict _ => false
  | _ => true
  end.

(** ** Induction on values

    The principle the nesting of [pyval] in lists and pairs calls for. *)

Section PyvalInd.
Variable P : pyval -> Prop.
Hypothesis HNone : P VNone.
Hypothesis HBool : forall b, P (VBool b).
Hypothesis HInt : forall i, P (VInt i).
Hypothesis HFloat : forall x, P (VFloat x).
Hypothesis HStr : forall s, P (VStr s).
Hypothesis HDatetime : forall d, P (VDatetime d).
Hypothesis HDate : forall d, P (VDate d).
Hypothesis HOther : forall cls n, P (VOther cls n).
Hypothesis HList : forall items, Forall P items -> P (VList items).
Hypothesis HDict :
  forall items, Forall (fun entry => P entry.2) items -> P (VDict items).

Fixpoint pyval_nested_ind (obj : pyval) : P obj :=
  match obj with
  | VNone => HNone
  | VBool b => HBool b
  | VInt i => HInt i
  | VFloat x => HFloat x
  | VStr s => HStr s
  | VDatetime d => HDatetime d
  | VDate d => HDate d
  | VOther cls n => HOther cls n
  | VList items =>
      HList items
        ((fix go (l : list pyval) : Forall P l :=
            match l with
            | [] => List.Forall_nil P
            | v :: l' => @List.Forall_cons _ P v l' (pyval_nested_ind v) (go l')
            end) items)
  | VDict items =>
      HDict items
        ((fix go (l : list (pyval * pyval))
            : Forall (fun entry => P entry.2) l :=
            match l with
            | [] => List.Forall_nil _
            | (k, v) :: l' =>
                @List.Forall_cons _ (fun entry => P entry.2) (k, v) l'
                  (pyval_nested_ind v) (go l')
            end) items)
  end.
End PyvalInd.

(** A path that one of the two existence checks accepts. *)
Definition accepted `{W : World} (p : str) : bool :=
  os_path_exists p
  || match pathlib_exists p with
     | Ok true => true
     | _ => false
     end.

(** The first path, in input order, that neither check accepts. *)
Definition first_rejected `{W : World} (files : list str) : option str :=
  List.find (fun p => negb (accepted p)) files.

(** The first path, in input order, that both existence checks miss: the
    first path that neither accepts, when the second check answers False
    there. *)
Definition first_missing `{W : World} (files : list str) : option str :=
  match first_rejected files with
  | Some p =>
      match pathlib_exists p with
      | Ok false => Some p
      | _ => None
      end
  | None => None
  end.

(** The entry of a dict under a [str] key. *)
Definition field (obj : pyval) (key : str) : option pyval :=
  match obj with
  | VDict items => snd <$> List.find (fun entry => key_is key entry.1) items
  | _ => None
  end.

(** A text is a diagnostic when it serialises an object whose
    [estimated_tokens] exceeds the budget and whose [token_limit] is the
    budget. *)
Definition is_diagnostic `{W : World} (text : str) : Prop :=
  exists obj estimate,
    json_dumps false obj = Ok text
    /\ field obj (lit "estimated_tokens") = Some (VInt estimate)
    /\ TOKEN_LIMIT < estimate
    /\ field obj (lit "token_limit") = Some (VInt TOKEN_LIMIT).

(** The records the query tool serialises before any truncation: one
    dict per fetched row, timestamps normalised, in the order of the
    fetch. *)
Definition records_of `{W : World} (columns : list str)
    (result : list (list pyval)) : list pyval :=
  map (fun row => _serialize_datetime (VDict (dict_zip columns row []))) result.

(** The call reaches the fetch: the files pass validation, every view is
    created, the statement runs, and [fetchall] hands back [result] with
    the columns [columns], the names [names] being bound by then. *)
Definition fetches `{W : World} (parquet_files : path_arg) (query : str)
    (names : gset str) (columns : list str) (result : list (list pyval))
    : Prop :=
  exists files conn conn',
    _validate_parquet_files parquet_files = Ok files
    /\ register_views duckdb_connect ∅ files = (Ok conn, names)
    /\ conn_execute conn query = (Ok (), conn')
    /\ conn_fetchall conn' = Ok result
    /\ conn_description conn' = columns.

(** Running statements in order on a connection, up to the first that
    fails. *)
Fixpoint run_statements `{W : World} (conn : Conn) (statements : list str)
    : outcome Conn :=
  match statements with
  | [] => Ok conn
  | sql :: rest =>
      match conn_execute conn sql with
      | (Ok _, conn) => run_statements conn rest
      | (Raise e, _) => Raise e
      end
  end.

(** The suggested cap as the specification words it, in exact
    arithmetic: [max(1, floor(rows × (budget / estimate) × 0.8))]. *)
Definition exact_suggested_limit (rows estimate : Z) : Z :=
  Z.max 1
    (Qfloor (inject_Z rows * (inject_Z TOKEN_LIMIT / inject_Z estimate)
             * (8 # 10))).

(** [base_k], the name the loop tries in its k-th round. *)
Definition suffixed (base : str) (k : Z) : str :=
  base ++ lit "_" ++ str_of_int k.

(** How often a stem occurs among the stems seen so far. *)
Definition occurrences (stem : str) (seen : list str) : Z :=
  len (List.filter (fun s => bool_decide (s = stem)) seen).

(** The naming rule as the specification words it: the stem for its first
    occurrence, the stem suffixed with the number of earlier occurrences
    for a later one. *)
Fixpoint names_by_count (seen stems : list str) : list str :=
  match stems with
  | [] => []
  | stem :: rest =>
      let k := occurrences stem seen in
      (if k =? 0 then stem else suffixed stem k)
      :: names_by_count (seen ++ [stem]) rest
  end.

(** No stem is another stem (or itself) followed by an underscore and a
    positive number. *)
Definition no_clash (stems : list str) : Prop :=
  forall s t k, s ∈ stems -> t ∈ stems -> 1 <= k -> s <> suffixed t k.

(** What the set of names holds once the stems [seen] are bound, when no
    suffixed name clashes with a stem: the stems, and each stem with the
    suffixes below its number of occurrences. *)
Definition bound_after (seen : list str) (table_names : gset str) : Prop :=
  forall x,
    x ∈ table_names
    <-> (x ∈ seen
         \/ (exists s k,
               s ∈ seen /\ 1 <= k < occurrences s seen /\ x = suffixed s k)).

(* ================================================================== *)
(** ** Further notions used by the properties *)
(* ================================================================== *)

(** The values the encoder writes as they are; they are also the dict
    keys it accepts. *)
Definition json_scalar (o : pyval) : bool :=
  match o with
  | VNone | VBool _ | VInt _ | VFloat _ | VStr _ => true
  | _ => false
  end.

Definition is_datetime (o : pyval) : bool :=
  match o with
  | VDatetime _ => true
  | _ => false
  end.

Definition is_date (o : pyval) : bool :=
  match o with
  | VDate _ => true
  | _ => false
  end.

(** A value made of lists and of dicts with scalar keys, down to leaves
    that satisfy [leaf]. *)
Fixpoint made_of (leaf : pyval -> bool) (obj : pyval) : bool :=
  match obj with
  | VList items => forallb (made_of leaf) items
  | VDict items =>
      forallb (fun '(k, v) => json_scalar k && made_of leaf v) items
  | _ => leaf obj
  end.

(** The items of a list and the entries of a dict, as [json_encode]
    writes them. *)
Section Items.
Context `{W : World} (ensure_ascii : bool) (level : nat).

Fixpoint encode_items (first : bool) (l : list pyval) : outcome str :=
  match l with
  | [] => Ok []
  | v :: l' =>
      t ← json_encode ensure_ascii (S level) v;
      rest ← encode_items false l';
      Ok ((if first then newline_indent (S level)
           else lit "," ++ newline_indent (S level))
          ++ t ++ rest)
  end.

Fixpoint encode_entries (first : bool) (l : list (pyval * pyval))
    : outcome str :=
  match l with
  | [] => Ok []
  | (k, v) :: l' =>
      key ← json_key k;
      t ← json_encode ensure_ascii (S level) v;
      rest ← encode_entries false l';
      Ok ((if first then newline_indent (S level)
           else lit "," ++ newline_indent (S level))
          ++ encode_basestring ensure_ascii key ++ lit ": "
          ++ t ++ rest)
  end.

End Items.

Definition date_error : exn :=
  mk_exn TypeError (lit "Object of type date is not JSON serializable").

(** The leaves of a result made of JSON scalars, timestamps and dates. *)
Definition scalar_or_temporal (v : pyval) : bool :=
  json_scalar v || is_datetime v || is_date v.

Definition date_failure_text : str :=
  lit "Query execution failed: Object of type date is not JSON serializable".

(** The names of a list in the order of their first occurrence. *)
Definition first_occurrences (seen names : list str) : list str :=
  fold_left (fun acc n => if bool_decide (n ∈ acc) then acc else acc ++ [n])
    names seen.

(** Lines 113-120 for one file: the entry written under its name, and
    the connection afterwards. *)
Definition describe_one `{W : World} (conn : Conn) (file_path : str)
    : pyval * Conn :=
  let query :=
    lit "DESCRIBE SELECT * FROM read_parquet('" ++ file_path ++ lit "')" in
  let '(executed, conn) := conn_execute conn query in
  let attempt : outcome pyval :=
    _ ← executed;
    result ← conn_fetchall conn;
    columns ← mapM column_entry result;
    Ok (VList columns) in
  (match attempt with
   | Ok columns => columns
   | Raise e => VStr (lit "Error reading schema: " ++ exn_msg e)
   end, conn).

(** The connection once the files have been described. *)
Definition connection_after `{W : World} (conn : Conn) (files : list str)
    : Conn :=
  fold_left (fun c f => (describe_one c f).2) files conn.

(** The records left by lines 167-168. *)
Definition kept_records `{W : World} (columns : list str)
    (result : list (list pyval)) (limit : Z) : list pyval :=
  let records := records_of columns result in
  if limit <? len records then slice_to records limit else records.

(** How many of [n] records the slice of lines 167-168 keeps. *)
Definition kept_count (n limit : Z) : Z :=
  if n <=? limit then n
  else if 0 <=? limit then limit
  else Z.max 0 (n + limit).

(** ** agent.py: the interactive loop (lines 156-169) *)

(** What one call of [input] gets from the keyboard: a line, as [input]
    returns it, or Ctrl-C.  Once the list is used up the input is at its
    end, and every further call raises [EOFError]. *)
Inductive key :=
| Typed (line : str)
| CtrlC.

(** How lines 162-164 end for a line that is not a word of exit: the
    agent is called and the content of the last message of its result is
    printed; or an [Exception] is raised on the way, [error] being its
    text; or Ctrl-C arrives before the three lines are through. *)
Inductive reply :=
| Says (content : str)
| Fails (error : str)
| Interrupted.

(** [user_input.lower() in ["exit", "quit"]].  [lower] leaves the code
    points outside ASCII alone; U+0130 lowers to an [i] followed by
    U+0307 and U+212A to a [k], so a line that holds either lowers to
    neither word in Python as well. *)
Definition is_exit_word (user_input : str) : bool :=
  bool_decide (lower user_input ∈ [ lit "exit"; lit "quit" ]).

Definition prompt : str := NL ++ lit "User: ".
Definition thinking : str := NL ++ lit "Agent is thinking..." ++ NL.
Definition eof_text : str := lit "EOF when reading a line".

(** [print(f"An error occurred: {e}")] *)
Definition error_line (error : str) : str :=
  lit "An error occurred: " ++ error ++ NL.

(** [print(f"\nAgent: {content}")] *)
Definition answer_line (content : str) : str :=
  NL ++ lit "Agent: " ++ content ++ NL.

(** The state of a session: what has been written to the standard
    output, the lines with which the loop went on to lines 162-164, and
    whether the loop has been left. *)
Record session := mk_session {
  printed : str;
  sent : list str;
  left : bool
}.

Section Interactive.

(** The agent: how a line ends, given the lines sent before it. *)
Variable agent : list str -> str -> reply.

(** The [while True] loop; each round costs one unit of fuel, and a
    session that is not [left] has not finished within the fuel.
    Writing to the standard output is taken to succeed. *)
Fixpoint interactive_loop (fuel : nat) (keys : list key) (s : session)
    : session :=
  match fuel with
  | O => s
  | S fuel' =>
      let s := mk_session (printed s ++ prompt) (sent s) false in
      match keys with
      | [] =>
          (* EOFError, caught by [except Exception] *)
          interactive_loop fuel' []
            (mk_session (printed s ++ error_line eof_text) (sent s) false)
      | CtrlC :: _ => mk_session (printed s) (sent s) true
      | Typed user_input :: keys' =>
          if is_exit_word user_input then
            mk_session (printed s) (sent s) true
          else
            let out := printed s ++ thinking in
            let sent' := sent s ++ [user_input] in
            match agent (sent s) user_input with
            | Says content =>
                interactive_loop fuel' keys'
                  (mk_session (out ++ answer_line content) sent' false)
            | Fails error =>
                interactive_loop fuel' keys'
                  (mk_session (out ++ error_line error) sent' false)
            | Interrupted => mk_session out sent' true
            end
      end
  end.

(** The round in which the keyboard and the agent make the loop stop,
    counted from 0, if there is one. *)
Fixpoint stop_round (keys : list key) (history : list str) : option nat :=
  match keys with
  | [] => None
  | CtrlC :: _ => Some O
  | Typed user_input :: keys' =>
      if is_exit_word user_input then Some O
      else
        match agent history user_input with
        | Interrupted => Some O
        | _ => S <$> stop_round keys' (history ++ [user_input])
        end
  end.

End Interactive.

(** A second world: two directories that each hold a file [spans.parquet],
    a file whose name has a hyphen, and an engine that describes the
    first two and, like DuckDB, refuses a view name with a hyphen. *)
Module Logs.

Definition log_files : list str :=
  [ lit "logs"; lit "logs/a"; lit "logs/b"; lit "logs/a/spans.parquet";
    lit "logs/b/spans.parquet"; lit "logs/my-file.parquet" ].

Definition in_logs (p : str) : bool := bool_decide (p ∈ log_files).

(** A path whose name has 300 characters, and what [Path.exists] does
    with it on Linux. *)
Definition long_name : str :=
  lit "logs/" ++ repeat 120%N 300 ++ lit ".parquet".

Definition name_too_long : exn :=
  mk_exn OSError
    (lit "[Errno 36] File name too long: '" ++ long_name ++ lit "'").

Definition path_exists (p : str) : outcome bool :=
  if bool_decide (p = long_name) then Raise name_too_long
  else Ok (in_logs p).

Definition describe_sql (file_path : str) : str :=
  lit "DESCRIBE SELECT * FROM read_parquet('" ++ file_path ++ lit "')".

(** A row of DESCRIBE: name, type, null, key, default, extra. *)
Definition column (name type : string) : list pyval :=
  [ VStr (lit name); VStr (lit type); VStr (lit "YES"); VNone; VNone; VNone ].

Definition spans_a : list (list pyval) := [ column "trace_id" "VARCHAR" ].
Definition spans_b : list (list pyval) :=
  [ column "trace_id" "VARCHAR"; column "duration" "BIGINT" ].

Definition describe_columns : list str :=
  [ lit "column_name"; lit "column_type"; lit "null"; lit "key";
    lit "default"; lit "extra" ].

Definition hyphen_error : exn :=
  mk_exn DuckDBError
    (lit "Parser Error: syntax error at or near " ++ [QUOTE] ++ lit "-"
     ++ [QUOTE]).

Definition run (c : Example.conn) (sql : str)
    : outcome unit * Example.conn :=
  if bool_decide
       (sql = create_view_sql (lit "my-file") (lit "logs/my-file.parquet"))
  then (Raise hyphen_error, c)
  else if startswith sql (lit "CREATE VIEW ") then (Ok (), c)
  else if bool_decide (sql = describe_sql (lit "logs/a/spans.parquet")) then
    (Ok (), Example.mk_conn spans_a describe_columns)
  else if bool_decide (sql = describe_sql (lit "logs/b/spans.parquet")) then
    (Ok (), Example.mk_conn spans_b describe_columns)
  else
    (Raise (mk_exn DuckDBError
              (lit "Catalog Error: Table does not exist: " ++ sql)), c).

Definition world : World := {|
  isoformat := Example.iso;
  float_repr := fun _ => lit "0.0";
  json_loads_list := Example.loads_list;
  repr_names := Example.show_names;
  os_path_exists := in_logs;
  pathlib_exists := path_exists;
  path_stem := Example.posix_stem;
  path_name := Example.posix_name;
  os_listdir := Example.listdir;
  Conn := Example.conn;
  duckdb_connect := Example.mk_conn [] [];
  conn_execute := run;
  conn_fetchall := fun c => Ok (Example.last_rows c);
  conn_description := Example.last_columns
|}.

Definition two_spans : path_arg :=
  PathList [ lit "logs/a/spans.parquet"; lit "logs/b/spans.parquet" ].
Definition spans_and_hyphen : path_arg :=
  PathList [ lit "logs/a/spans.parquet"; lit "logs/my-file.parquet" ].

End Logs.

(** A misspelt query, and the error the engine of the first world gives
    for it. *)
Definition q_typo : str := lit "SELEC * FROM events".

Definition typo_error : exn :=
  mk_exn DuckDBError
    (lit "Parser Error: syntax error at or near " ++ q_typo).

(** ** Proof automation *)

(** Quotients and remainders are named before [lia] sees them. *)
Ltac name_divmod :=
  repeat match goal with
    | |- context [N.modulo ?a ?b] => generalize dependent (N.modulo a b)
    | |- context [N.div ?a ?b] => generalize dependent (N.div a b)
    end;
  intros.

(** Closed facts are settled by evaluation. *)
Ltac evaluate := repeat apply conj; vm_compute; reflexivity.

(* ================================================================== *)
(** * Properties *)
(* ================================================================== *)

(** ** The token estimate *)

(** C7: the token estimate of a text is the ceiling of a third of its
    length (as a rational number, and as the least integer whose triple
    reaches the length), so that it depends on the length of the text
    alone: two texts of equal length, whatever their characters, get the
    same estimate. *)
Theorem estimate_is_ceiling_of_a_third (s t : str) :
  _estimate_token_count s = Qceiling (len s # 3)
  /\ 3 * (_estimate_token_count s - 1) < len s <= 3 * _estimate_token_count s
  /\ (len s = len t -> _estimate_token_count s = _estimate_token_count t).
Proof.
  unfold _estimate_token_count.
  split; [|split].
  - unfold Qceiling, Qfloor, Qopp. simpl Qnum. simpl Qden.
    pose proof (Z.div_mod (len s + 3 - 1) 3 ltac:(lia)) as E1.
    pose proof (Z.mod_pos_bound (len s + 3 - 1) 3 ltac:(lia)) as B1.
    pose proof (Z.div_mod (- len s) 3 ltac:(lia)) as E2.
    pose proof (Z.mod_pos_bound (- len s) 3 ltac:(lia)) as B2.
    lia.
  - pose proof (Z.div_mod (len s + 3 - 1) 3 ltac:(lia)) as E1.
    pose proof (Z.mod_pos_bound (len s + 3 - 1) 3 ltac:(lia)) as B1.
    lia.
  - intros ->. reflexivity.
Qed.

(** ** The datetime normalisation *)

Section Serialize.
Context `{W : World}.

Lemma serialize_no_datetime_left (obj : pyval) :
  has_datetime (_serialize_datetime obj) = false.
Proof.
  induction obj as [| | | | | | | |items IH|items IH] using pyval_nested_ind;
    simpl; try reflexivity.
  - induction IH as [|v l Hv _ IHl]; simpl; [reflexivity|].
    rewrite Hv. exact IHl.
  - induction IH as [|[k v] l Hv _ IHl]; simpl; [reflexivity|].
    simpl in Hv. rewrite Hv. exact IHl.
Qed.

Lemma serialize_fixes_datetime_free (obj : pyval) :
  has_datetime obj = false -> _serialize_datetime obj = obj.
Proof.
  induction obj as [| | | | | | | |items IH|items IH] using pyval_nested_ind;
    simpl; intros Hfree; try reflexivity; try discriminate.
  - f_equal. induction IH as [|v l Hv _ IHl]; simpl; [reflexivity|].
    simpl in Hfree. apply orb_false_elim in Hfree as [H1 H2].
    rewrite (Hv H1), (IHl H2). reflexivity.
  - f_equal. induction IH as [|[k v] l Hv _ IHl]; simpl; [reflexivity|].
    simpl in Hfree, Hv. apply orb_false_elim in Hfree as [H1 H2].
    rewrite (Hv H1), (IHl H2). reflexivity.
Qed.

(** C10 (amended): normalising twice is the same as normalising once,
    for every value however nested: the first pass leaves no datetime at
    a place the function visits (the items of lists and the values of
    dicts, at every depth), and a value without a datetime at such a
    place is returned as it is.  The output may still hold values of a
    temporal type: dates, times and intervals, and datetimes used as dict
    keys, are not touched. *)
Theorem serialize_datetime_idempotent (obj : pyval) :
  _serialize_datetime (_serialize_datetime obj) = _serialize_datetime obj
  /\ has_datetime (_serialize_datetime obj) = false
  /\ (has_datetime obj = false -> _serialize_datetime obj = obj).
Proof.
  pose proof (serialize_no_datetime_left obj) as Hclean.
  split; [|split; [exact Hclean|]].
  - exact (serialize_fixes_datetime_free _ Hclean).
  - apply serialize_fixes_datetime_free.
Qed.

Lemma value_at_serialize (path : list nat) (obj : pyval) :
  value_at path (_serialize_datetime obj)
  = _serialize_datetime <$> value_at path obj.
Proof.
  revert obj. induction path as [|i path IH]; intros obj; [reflexivity|].
  destruct obj; simpl; try reflexivity.
  - rewrite list_lookup_fmap. destruct (items !! i) as [item|]; simpl;
      [apply IH | reflexivity].
  - rewrite list_lookup_fmap. destruct (items !! i) as [[k v]|]; simpl;
      [apply IH | reflexivity].
Qed.

(** C9 (amended): at every depth of lists and dict values, a datetime
    becomes its [isoformat()] text, every value that is neither a datetime
    nor a container (a date, a time, an interval, a number, a text) stays
    as it is, and a dict keeps its keys, whatever they are. *)
Theorem serialize_converts_datetimes_only (obj : pyval) (path : list nat) :
  (forall d, value_at path obj = Some (VDatetime d) ->
     value_at path (_serialize_datetime obj) = Some (VStr (isoformat d)))
  /\ (forall v, value_at path obj = Some v -> is_plain v = true ->
     value_at path (_serialize_datetime obj) = Some v)
  /\ (forall items, value_at path obj = Some (VDict items) ->
     exists items',
       value_at path (_serialize_datetime obj) = Some (VDict items')
       /\ map fst items' = map fst items).
Proof.
  rewrite value_at_serialize.
  split; [|split].
  - intros d ->. reflexivity.
  - intros v -> Hplain. destruct v; try discriminate; reflexivity.
  - intros items ->. simpl. eexists. split; [reflexivity|].
    rewrite map_map. apply map_ext. intros [k v]. reflexivity.
Qed.

End Serialize.

(** ** Texts *)

Lemma startswith_app (prefix rest : str) :
  startswith (prefix ++ rest) prefix = true.
Proof.
  induction prefix as [|c prefix IH]; simpl; [reflexivity|].
  rewrite N.eqb_refl. exact IH.
Qed.

Lemma startswith_differ (a b prefix : str) :
  startswith a prefix = true -> startswith b prefix = false -> a <> b.
Proof. intros Ha Hb ->. congruence. Qed.

Lemma str_contains_unfold (needle hay : str) :
  str_contains needle hay
  = startswith hay needle
    || match hay with [] => false | _ :: hay' => str_contains needle hay' end.
Proof. destruct hay; reflexivity. Qed.

Lemma str_contains_app_r (needle before after : str) :
  str_contains needle after = true ->
  str_contains needle (before ++ after) = true.
Proof.
  intros H. induction before as [|c before IH]; simpl; [exact H|].
  rewrite IH. apply orb_true_r.
Qed.

Lemma str_contains_middle (needle before after : str) :
  str_contains needle (before ++ needle ++ after) = true.
Proof.
  apply str_contains_app_r. rewrite str_contains_unfold, startswith_app.
  reflexivity.
Qed.

Lemma lower_app (a b : str) : lower (a ++ b) = lower a ++ lower b.
Proof. apply map_app. Qed.

(** ** Decimal numerals *)

Lemma digits_le_length (fuel : nat) (n : N) :
  (length (digits_le fuel n) <= fuel)%nat.
Proof.
  revert n. induction fuel as [|fuel IH]; intros n; simpl; [lia|].
  destruct (n <? 10)%N; simpl; [lia|]. specialize (IH (n / 10)%N). lia.
Qed.

Lemma digits_le_value (fuel : nat) (n : N) :
  (n < 2 ^ N.of_nat fuel)%N -> (0 < fuel)%nat ->
  digits_value (digits_le fuel n) = n.
Proof.
  revert n. induction fuel as [|fuel IH]; intros n Hn Hfuel; [lia|].
  cbn [digits_le]. destruct (n <? 10)%N eqn:E.
  - cbn [digits_value]. lia.
  - apply N.ltb_ge in E. cbn [digits_value].
    rewrite Nat2N.inj_succ, N.pow_succ_r' in Hn.
    assert (fuel <> O) as Hne.
    { intros ->. change (N.of_nat 0) with 0%N in Hn.
      rewrite N.pow_0_r in Hn. lia. }
    rewrite IH; [| |lia].
    + pose proof (N.div_mod n 10 ltac:(lia)).
      pose proof (N.mod_lt n 10 ltac:(lia)). clear Hn IH.
      name_divmod. lia.
    + apply N.Div0.div_lt_upper_bound. lia.
Qed.

Lemma digits_le_digits (fuel : nat) (n : N) :
  Forall (fun c => (48 <= c <= 57)%N) (digits_le fuel n).
Proof.
  revert n. induction fuel as [|fuel IH]; intros n; simpl; [constructor|].
  destruct (n <? 10)%N eqn:E.
  - apply N.ltb_lt in E. repeat constructor; lia.
  - constructor; [|apply IH].
    pose proof (N.mod_lt n 10 ltac:(lia)). name_divmod. lia.
Qed.

Lemma log2_fuel (n : N) : (n < 2 ^ N.of_nat (S (N.to_nat (N.log2 n))))%N.
Proof.
  rewrite Nat2N.inj_succ, N2Nat.id.
  destruct n as [|p]; [reflexivity|].
  apply N.log2_spec. lia.
Qed.

Lemma str_of_N_inj (n m : N) : str_of_N n = str_of_N m -> n = m.
Proof.
  unfold str_of_N. intros H. apply (f_equal (@rev _)) in H.
  rewrite !rev_involutive in H.
  rewrite <- (digits_le_value _ n (log2_fuel n)) by lia.
  rewrite <- (digits_le_value _ m (log2_fuel m)) by lia.
  rewrite H. reflexivity.
Qed.

Lemma str_of_N_digits (n : N) :
  Forall (fun c => (48 <= c <= 57)%N) (str_of_N n).
Proof.
  unfold str_of_N. apply Forall_rev, digits_le_digits.
Qed.

Lemma str_of_N_length (n : N) :
  (0 < n)%N -> (N.of_nat (length (str_of_N n)) <= n)%N.
Proof.
  intros Hn. unfold str_of_N. rewrite length_rev.
  pose proof (digits_le_length (S (N.to_nat (N.log2 n))) n).
  pose proof (N.log2_lt_lin n Hn). lia.
Qed.

Lemma str_of_int_nonneg (i : Z) : 0 <= i -> str_of_int i = str_of_N (Z.to_N i).
Proof.
  intros Hi. unfold str_of_int. destruct (i <? 0) eqn:E; [|reflexivity].
  apply Z.ltb_lt in E. lia.
Qed.

Lemma str_of_int_length (i : Z) : 0 < i -> len (str_of_int i) <= i.
Proof.
  intros Hi. rewrite str_of_int_nonneg by lia. unfold len.
  pose proof (str_of_N_length (Z.to_N i) ltac:(lia)). lia.
Qed.

Lemma str_of_int_inj (i j : Z) :
  0 <= i -> 0 <= j -> str_of_int i = str_of_int j -> i = j.
Proof.
  intros Hi Hj. rewrite !str_of_int_nonneg by lia.
  intros H%str_of_N_inj. lia.
Qed.

(** ** The JSON encoder *)

Section Json.
Context `{W : World}.

Lemma encode_list_starts (ensure_ascii : bool) (level : nat)
    (items : list pyval) (text : str) :
  json_encode ensure_ascii level (VList items) = Ok text ->
  startswith text (lit "[") = true.
Proof.
  destruct items as [|v items]; simpl.
  - intros [= <-]. reflexivity.
  - destruct (json_encode ensure_ascii (S level) v) as [t|e]; simpl;
      [|discriminate].
    match goal with |- context [mbind _ ?r] => destruct r as [rest|e] end;
      simpl; [|discriminate].
    intros [= <-]. reflexivity.
Qed.

Lemma encode_dict_starts (ensure_ascii : bool) (level : nat)
    (items : list (pyval * pyval)) (text : str) :
  json_encode ensure_ascii level (VDict items) = Ok text ->
  startswith text (lit "{") = true.
Proof.
  destruct items as [|[k v] items]; simpl.
  - intros [= <-]. reflexivity.
  - destruct (json_key k) as [key|e]; simpl; [|discriminate].
    destruct (json_encode ensure_ascii (S level) v) as [t|e]; simpl;
      [|discriminate].
    match goal with |- context [mbind _ ?r] => destruct r as [rest|e] end;
      simpl; [|discriminate].
    intros [= <-]. reflexivity.
Qed.

Lemma dumps_warning_ok (context : str) (estimate : Z)
    (current_size suggested_limit : option Z) :
  exists text,
    json_dumps false (warning context estimate current_size suggested_limit)
    = Ok text.
Proof.
  destruct current_size, suggested_limit; eexists; reflexivity.
Qed.

End Json.

(** ** The size-budget guard *)

Section Guard.
Context `{W : World}.

(** For a payload of unknown row count the diagnostic is 102 characters,
    the digits of the estimate, and 364 characters more. *)
Lemma warning_text_length (estimate : Z) (text : str) :
  json_dumps false
    (warning (lit "query_parquet_files") estimate None None) = Ok text ->
  len text = 466 + len (str_of_int estimate).
Proof.
  unfold json_dumps, warning.
  cbn -[str_of_int].
  intros [= <-]. unfold len.
  match goal with
  | |- Z.of_nat (length ?big) = _ => rewrite <- (firstn_skipn 102 big)
  end.
  rewrite length_app.
  match goal with
  | |- context [length (firstn 102 ?big)] =>
      replace (length (firstn 102 big)) with 102%nat by reflexivity
  end.
  cbn [skipn]. rewrite skipn_O, !length_app.
  match goal with
  | |- context [(length (str_of_int estimate) + length ?rest + length ?tail)%nat] =>
      replace (length rest) with 362%nat by reflexivity;
      replace (length tail) with 2%nat by reflexivity
  end.
  lia.
Qed.

Lemma estimate_bounds (text : str) :
  3 * (_estimate_token_count text - 1) < len text
  <= 3 * _estimate_token_count text.
Proof.
  unfold _estimate_token_count.
  pose proof (Z.div_mod (len text + 3 - 1) 3 ltac:(lia)) as E.
  pose proof (Z.mod_pos_bound (len text + 3 - 1) 3 ltac:(lia)) as B.
  generalize dependent ((len text + 3 - 1) mod 3).
  generalize dependent ((len text + 3 - 1) / 3). intros. lia.
Qed.

Lemma diagnostic_starts_with_brace (text : str) :
  is_diagnostic text -> startswith text (lit "{") = true.
Proof.
  intros (obj & estimate & Hdump & Hfield & _).
  destruct obj; try discriminate.
  exact (encode_dict_starts _ _ _ _ Hdump).
Qed.

Lemma warning_is_diagnostic (context : str) (estimate : Z)
    (current_size suggested_limit : option Z) (text : str) :
  TOKEN_LIMIT < estimate ->
  json_dumps false (warning context estimate current_size suggested_limit)
    = Ok text ->
  is_diagnostic text.
Proof.
  intros Hover Hdump. exists (warning context estimate current_size
                                suggested_limit), estimate.
  repeat split; [exact Hdump | exact Hover].
Qed.

(** The two outcomes of the guard. *)
Lemma enforce_cases (payload context : str) :
  (_estimate_token_count payload <= TOKEN_LIMIT
   /\ _enforce_token_limit payload context = Ok payload)
  \/ (TOKEN_LIMIT < _estimate_token_count payload
      /\ exists text,
           _enforce_token_limit payload context = Ok text
           /\ json_dumps false
                (warning context (_estimate_token_count payload)
                   (current_size_of payload)
                   (suggested_limit_of (current_size_of payload)
                      (_estimate_token_count payload))) = Ok text
           /\ is_diagnostic text).
Proof.
  unfold _enforce_token_limit.
  destruct (_estimate_token_count payload <=? TOKEN_LIMIT) eqn:E.
  - left. apply Z.leb_le in E. auto.
  - right. apply Z.leb_gt in E. split; [exact E|].
    destruct (dumps_warning_ok context (_estimate_token_count payload)
                (current_size_of payload)
                (suggested_limit_of (current_size_of payload)
                   (_estimate_token_count payload))) as [text Htext].
    exists text. split; [exact Htext|]. split; [exact Htext|].
    exact (warning_is_diagnostic _ _ _ _ _ E Htext).
Qed.

Lemma brace_is_not_bracket (a b : str) :
  startswith a (lit "{") = true -> startswith b (lit "[") = true -> a <> b.
Proof.
  intros Ha Hb ->. destruct b as [|c b]; [vm_compute in Ha; discriminate|].
  unfold lit in Ha, Hb. cbn in Ha, Hb.
  rewrite andb_true_r, N.eqb_eq in Ha, Hb.
  rewrite <- Hb in Ha. vm_compute in Ha. discriminate.
Qed.


End Guard.

(** The specification's formula, without the rationals. *)
Lemma exact_suggested_limit_quotient (rows estimate : Z) :
  0 < estimate ->
  exact_suggested_limit rows estimate = Z.max 1 (4000 * rows / estimate).
Proof.
  intros Hpos. unfold exact_suggested_limit, TOKEN_LIMIT. f_equal.
  destruct estimate as [|p|p]; try lia.
  unfold Qfloor, Qmult, Qdiv, Qinv, inject_Z. simpl Qnum. simpl Qden.
  replace (rows * (5000 * 1) * 8) with ((4000 * rows) * 10) by lia.
  replace (Z.pos (1 * (1 * p) * 10)) with (Z.pos p * 10) by lia.
  apply Z.div_mul_cancel_r; lia.
Qed.

Section Suggestion.
Context `{W : World}.

(** C3 (amended): when the guard rejects a payload, the diagnostic
    carries the row count the code recovered (none unless the payload
    starts with a bracket and parses) and, for a positive row count, the
    cap [max(1, int(rows * (5000 / estimate) * 0.8))] evaluated in double
    precision, left to right; the cap is at least 1, and it is absent for
    an unknown or zero row count. *)
Theorem suggested_limit_in_floating_point (payload context : str) :
  let estimate := _estimate_token_count payload in
  TOKEN_LIMIT < estimate ->
  exists text obj,
    _enforce_token_limit payload context = Ok text
    /\ json_dumps false obj = Ok text
    /\ field obj (lit "rows_returned")
       = Some (opt_int (current_size_of payload))
    /\ field obj (lit "suggested_limit")
       = Some
           match current_size_of payload with
           | Some rows =>
               if rows =? 0 then VNone
               else
                 VInt (Z.max 1
                         (int_of_float
                            (float_mul
                               (float_mul (float_of_int rows)
                                  (int_truediv TOKEN_LIMIT estimate))
                               float_0_8)))
           | None => VNone
           end
    /\ (forall limit,
          field obj (lit "suggested_limit") = Some (VInt limit) ->
          1 <= limit).
Proof.
  intros estimate Hover.
  destruct (enforce_cases payload context)
    as [[Hfit _]|(_ & text & Hres & Hdump & _)]; [fold estimate in Hfit; lia|].
  fold estimate in Hdump.
  exists text, (warning context estimate (current_size_of payload)
                  (suggested_limit_of (current_size_of payload) estimate)).
  split; [exact Hres|]. split; [exact Hdump|].
  split; [reflexivity|].
  unfold suggested_limit_of.
  destruct (current_size_of payload) as [rows|]; [|split; [reflexivity|]].
  - destruct (rows =? 0); (split; [reflexivity|]).
    + intros limit. cbn. discriminate.
    + intros limit. cbn. intros [= <-]. lia.
  - intros limit. cbn. discriminate.
Qed.

End Suggestion.

(** ** File validation *)

Section Validation.
Context `{W : World}.

Lemma check_files_first_rejected (files : list str) :
  check_files files
  = match first_rejected files with
    | Some p =>
        match pathlib_exists p with
        | Ok _ => Raise (mk_exn FileNotFoundError (not_found_message p))
        | Raise e => Raise e
        end
    | None => Ok ()
    end.
Proof.
  unfold first_rejected, accepted.
  induction files as [|p files IH]; simpl; [reflexivity|].
  destruct (os_path_exists p); simpl; [exact IH|].
  destruct (pathlib_exists p) as [[]|e] eqn:E; simpl;
    [exact IH | rewrite E; reflexivity | rewrite E; reflexivity].
Qed.

Lemma first_rejected_spec (files : list str) (p : str) :
  first_rejected files = Some p ->
  exists before after,
    files = before ++ p :: after
    /\ os_path_exists p = false /\ pathlib_exists p <> Ok true
    /\ forall q, q ∈ before -> accepted q = true.
Proof.
  unfold first_rejected. induction files as [|q files IH]; simpl;
    [discriminate|].
  destruct (accepted q) eqn:E; simpl.
  - intros H. destruct (IH H) as (before & after & -> & H1 & H2 & H3).
    exists (q :: before), after. split; [reflexivity|].
    split; [exact H1|]. split; [exact H2|].
    intros r [->|Hr]%elem_of_cons; auto.
  - intros [= ->]. exists [], files. split; [reflexivity|].
    unfold accepted in E. apply orb_false_elim in E as [E1 E2].
    split; [exact E1|]. split; [intros E3; rewrite E3 in E2; discriminate|].
    intros r Hr. inversion Hr.
Qed.

Lemma first_rejected_none (files : list str) :
  first_rejected files = None -> forall p, p ∈ files -> accepted p = true.
Proof.
  unfold first_rejected. intros H p Hp.
  apply list_elem_of_In in Hp.
  pose proof (List.find_none _ _ H p Hp) as E.
  apply negb_false_iff in E. exact E.
Qed.

Lemma message_names_path (p : str) :
  str_contains p (not_found_message p) = true
  /\ str_contains (lit "list_tables_in_directory") (not_found_message p) = true.
Proof.
  unfold not_found_message. split.
  - apply str_contains_middle.
  - rewrite !app_assoc. apply str_contains_app_r. reflexivity.
Qed.

Lemma validate_rejected (parquet_files : path_arg) :
  _validate_parquet_files parquet_files
  = match first_rejected (as_list parquet_files) with
    | Some p =>
        match pathlib_exists p with
        | Ok _ => Raise (mk_exn FileNotFoundError (not_found_message p))
        | Raise e => Raise e
        end
    | None => Ok (as_list parquet_files)
    end.
Proof.
  unfold _validate_parquet_files. rewrite check_files_first_rejected.
  destruct (first_rejected _) as [p|]; [|reflexivity].
  destruct (pathlib_exists p); reflexivity.
Qed.

Lemma validate_missing (parquet_files : path_arg) (p : str) :
  first_missing (as_list parquet_files) = Some p ->
  _validate_parquet_files parquet_files
  = Raise (mk_exn FileNotFoundError (not_found_message p)).
Proof.
  unfold first_missing. rewrite validate_rejected.
  destruct (first_rejected _) as [q|]; [|discriminate].
  destruct (pathlib_exists q) as [[]|e]; try discriminate.
  intros [= ->]. reflexivity.
Qed.

(** C8 (amended): the validation stops at the first path, in input
    order, that neither existence check accepts, the paths before it
    being accepted: [os.path.exists] answers False there, and
    [Path.exists] does not answer True.  When it answers False the
    validation raises a FileNotFoundError whose message contains that
    path and the name of the discovery tool; when it raises, its OSError
    leaves the validation instead.  When every path is accepted by one
    of the checks the list is returned as it is, and the validation
    raises nothing else. *)
Theorem validation_reports_first_missing (parquet_files : path_arg) :
  let files := as_list parquet_files in
  (forall p, first_rejected files = Some p ->
     (exists before after,
        files = before ++ p :: after
        /\ forall q, q ∈ before -> accepted q = true)
     /\ os_path_exists p = false
     /\ pathlib_exists p <> Ok true
     /\ (pathlib_exists p = Ok false ->
         _validate_parquet_files parquet_files
           = Raise (mk_exn FileNotFoundError (not_found_message p))
         /\ str_contains p (not_found_message p) = true
         /\ str_contains (lit "list_tables_in_directory")
              (not_found_message p) = true)
     /\ (forall e, pathlib_exists p = Raise e ->
         _validate_parquet_files parquet_files = Raise e))
  /\ (first_rejected files = None ->
      (forall p, p ∈ files -> accepted p = true)
      /\ _validate_parquet_files parquet_files = Ok files)
  /\ (forall e, _validate_parquet_files parquet_files = Raise e ->
      exists p,
        first_rejected files = Some p
        /\ ((pathlib_exists p = Ok false
             /\ e = mk_exn FileNotFoundError (not_found_message p))
            \/ pathlib_exists p = Raise e)).
Proof.
  intros files. rewrite validate_rejected. fold files.
  split; [|split].
  - intros p Hp. rewrite Hp.
    destruct (first_rejected_spec _ _ Hp) as (before & after & E & H1 & H2 & H3).
    split; [eauto|]. split; [exact H1|]. split; [exact H2|]. split.
    + intros ->. split; [reflexivity|]. apply message_names_path.
    + intros e ->. reflexivity.
  - intros H. rewrite H. split; [|reflexivity].
    apply first_rejected_none, H.
  - intros e. destruct (first_rejected files) as [p|] eqn:Hp; [|discriminate].
    destruct (first_rejected_spec _ _ Hp) as (_ & _ & _ & _ & H2 & _).
    destruct (pathlib_exists p) as [[]|e'] eqn:E.
    + congruence.
    + intros [= <-]. exists p. auto.
    + intros [= <-]. exists p. auto.
Qed.

End Validation.

(** ** Relation names *)

Lemma suffixed_inj (base : str) (i j : Z) :
  0 <= i -> 0 <= j -> suffixed base i = suffixed base j -> i = j.
Proof.
  unfold suffixed. intros Hi Hj H.
  apply app_inv_head in H. apply app_inv_head in H.
  exact (str_of_int_inj i j Hi Hj H).
Qed.

(** A list splits in one way only at a pivot that occurs nowhere before
    it. *)
Lemma split_at_pivot {A} (x : A) (l1 l2 r1 r2 : list A) :
  x ∉ l1 -> x ∉ l2 -> l1 ++ x :: r1 = l2 ++ x :: r2 -> l1 = l2 /\ r1 = r2.
Proof.
  revert l2. induction l1 as [|a l1 IH]; intros [|b l2] H1 H2 E; simpl in E.
  - injection E as ->. auto.
  - injection E as -> _. exfalso. apply H2. left.
  - injection E as -> _. exfalso. apply H1. left.
  - injection E as -> E.
    destruct (IH l2) as [-> ->]; auto.
    + intros ?. apply H1. right. assumption.
    + intros ?. apply H2. right. assumption.
Qed.

Lemma underscore_not_in_numeral (i : Z) : 0 <= i -> 95%N ∉ str_of_int i.
Proof.
  intros Hi Hin. rewrite str_of_int_nonneg in Hin by exact Hi.
  pose proof (str_of_N_digits (Z.to_N i)) as Hdigits.
  rewrite Forall_forall in Hdigits. specialize (Hdigits _ Hin). lia.
Qed.

Lemma suffixed_split (b1 b2 : str) (i j : Z) :
  0 <= i -> 0 <= j -> suffixed b1 i = suffixed b2 j -> b1 = b2 /\ i = j.
Proof.
  unfold suffixed. intros Hi Hj E.
  apply (f_equal (@rev _)) in E.
  rewrite !rev_app_distr in E. change (rev (lit "_")) with [95%N] in E.
  rewrite <- !app_assoc in E. simpl in E.
  apply split_at_pivot in E as [Ed Eb].
  - apply (f_equal (@rev _)) in Ed, Eb. rewrite !rev_involutive in Ed, Eb.
    split; [exact Eb | exact (str_of_int_inj i j Hi Hj Ed)].
  - rewrite list_elem_of_In, <- in_rev, <- list_elem_of_In.
    apply underscore_not_in_numeral, Hi.
  - rewrite list_elem_of_In, <- in_rev, <- list_elem_of_In.
    apply underscore_not_in_numeral, Hj.
Qed.

Lemma dedup_loop_unfold (fuel : nat) (table_names : gset str)
    (base_name table_name : str) (counter : Z) :
  dedup_loop fuel table_names base_name table_name counter
  = if bool_decide (table_name ∈ table_names) then
      match fuel with
      | O => None
      | S fuel' =>
          dedup_loop fuel' table_names base_name
            (suffixed base_name counter) (counter + 1)
      end
    else Some table_name.
Proof. destruct fuel; reflexivity. Qed.

(** The loop stops at the first suffix that is free, given fuel for the
    rounds up to it. *)
Lemma dedup_loop_spec (fuel : nat) (table_names : gset str)
    (base_name table_name : str) (counter m : Z) :
  table_name ∈ table_names ->
  (forall k, counter <= k < m -> suffixed base_name k ∈ table_names) ->
  suffixed base_name m ∉ table_names ->
  counter <= m -> m - counter < Z.of_nat fuel ->
  dedup_loop fuel table_names base_name table_name counter
  = Some (suffixed base_name m).
Proof.
  revert table_name counter.
  induction fuel as [|fuel IH]; intros table_name counter Hin Hbelow Hfree
    Hle Hfuel; [lia|].
  rewrite dedup_loop_unfold, bool_decide_eq_true_2 by exact Hin.
  destruct (decide (counter = m)) as [->|Hne].
  - rewrite dedup_loop_unfold, bool_decide_eq_false_2 by exact Hfree.
    reflexivity.
  - apply IH; try lia.
    + apply Hbelow. lia.
    + intros k Hk. apply Hbelow. lia.
    + exact Hfree.
Qed.

(** Among the suffixes 1 .. size + 1 one is free: the least such. *)
Lemma least_free_suffix (table_names : gset str) (base_name : str) :
  exists m,
    1 <= m <= Z.of_nat (size table_names) + 1
    /\ (suffixed base_name m ∉ table_names)
    /\ forall k, 1 <= k < m -> suffixed base_name k ∈ table_names.
Proof.
  assert (forall n : nat,
            (forall k, 1 <= k <= Z.of_nat n ->
                       suffixed base_name k ∈ table_names)
            \/ exists m, 1 <= m <= Z.of_nat n
                 /\ (suffixed base_name m ∉ table_names)
                 /\ forall k, 1 <= k < m -> suffixed base_name k ∈ table_names)
    as Hsearch.
  { induction n as [|n [Hall|(m & Hm & Hfree & Hleast)]].
    - left. intros k Hk. lia.
    - destruct (decide (suffixed base_name (Z.of_nat (S n)) ∈ table_names))
        as [Hin|Hout].
      + left. intros k Hk.
        destruct (decide (k = Z.of_nat (S n))) as [->|Hne]; [exact Hin|].
        apply Hall. lia.
      + right. exists (Z.of_nat (S n)). split; [lia|]. split; [exact Hout|].
        intros k Hk. apply Hall. lia.
    - right. exists m. split; [lia|]. auto. }
  destruct (Hsearch (S (size table_names))) as [Hall|(m & Hm & Hrest)].
  - exfalso.
    set (candidates :=
           (fun k : nat => suffixed base_name (Z.of_nat k))
             <$> seq 1 (S (size table_names))).
    assert (NoDup candidates) as Hnodup.
    { apply NoDup_fmap_2_strong; [|apply NoDup_seq].
      intros i j _ _ E. apply suffixed_inj in E; lia. }
    assert (list_to_set candidates ⊆ table_names) as Hsub.
    { intros x Hx. apply elem_of_list_to_set in Hx.
      apply list_elem_of_fmap in Hx as (k & -> & Hk).
      apply elem_of_seq in Hk. apply Hall. lia. }
    apply subseteq_size in Hsub.
    rewrite size_list_to_set in Hsub by exact Hnodup.
    unfold candidates in Hsub. rewrite length_fmap, length_seq in Hsub. lia.
  - exists m. split; [lia | exact Hrest].
Qed.

Section Names.
Context `{W : World}.

(** The name a file is bound under: its stem when that is free, else the
    stem with the least free suffix.  In particular the loop always
    finishes within its fuel. *)
Lemma bind_name_spec (table_names : gset str) (file_path : str) :
  let stem := path_stem file_path in
  dedup_loop (S (size table_names)) table_names stem stem 1
    = Some (bind_name table_names file_path)
  /\ (((stem ∉ table_names) /\ bind_name table_names file_path = stem)
      \/ (stem ∈ table_names
          /\ exists m,
               1 <= m
               /\ bind_name table_names file_path = suffixed stem m
               /\ (suffixed stem m ∉ table_names)
               /\ forall k, 1 <= k < m -> suffixed stem k ∈ table_names)).
Proof.
  intros stem. unfold bind_name. fold stem.
  destruct (decide (stem ∈ table_names)) as [Hin|Hout].
  - destruct (least_free_suffix table_names stem) as (m & Hm & Hfree & Hleast).
    rewrite (dedup_loop_spec _ _ _ _ 1 m Hin Hleast Hfree) by lia.
    split; [reflexivity|]. right. split; [exact Hin|].
    exists m. split; [lia|]. auto.
  - rewrite dedup_loop_unfold, bool_decide_eq_false_2 by exact Hout.
    split; [reflexivity|]. left. auto.
Qed.

Lemma dedup_loop_finishes (table_names : gset str) (base_name : str) :
  is_Some (dedup_loop (S (size table_names)) table_names base_name
             base_name 1).
Proof.
  destruct (decide (base_name ∈ table_names)) as [Hin|Hout].
  - destruct (least_free_suffix table_names base_name)
      as (m & Hm & Hfree & Hleast).
    rewrite (dedup_loop_spec _ _ _ _ 1 m Hin Hleast Hfree) by lia. eauto.
  - rewrite dedup_loop_unfold, bool_decide_eq_false_2 by exact Hout. eauto.
Qed.

Lemma bind_name_fresh (table_names : gset str) (file_path : str) :
  bind_name table_names file_path ∉ table_names.
Proof.
  destruct (bind_name_spec table_names file_path)
    as [_ [[Hout ->]|(_ & m & _ & -> & Hfree & _)]]; assumption.
Qed.

Lemma relation_names_fresh (files : list str) (table_names : gset str) :
  NoDup (relation_names table_names files)
  /\ forall name, name ∈ relation_names table_names files ->
                  name ∉ table_names.
Proof.
  revert table_names. induction files as [|file files IH]; intros table_names.
  - split; [constructor | intros name Hin; inversion Hin].
  - simpl. destruct (IH ({[bind_name table_names file]} ∪ table_names))
      as [Hnodup Hfresh].
    split.
    + constructor; [|exact Hnodup]. intros Hin.
      apply Hfresh in Hin. apply Hin, elem_of_union. left.
      apply elem_of_singleton. reflexivity.
    + intros name [->|Hin]%elem_of_cons.
      * apply bind_name_fresh.
      * apply Hfresh in Hin. intros Hold.
        apply Hin, elem_of_union. right. exact Hold.
Qed.

Lemma relation_names_length (files : list str) (table_names : gset str) :
  length (relation_names table_names files) = length files.
Proof.
  revert table_names. induction files as [|file files IH]; intros table_names;
    simpl; [reflexivity|]. rewrite IH. reflexivity.
Qed.

(** Each name is the stem when no earlier file took it, and else the stem
    with the least suffix that no earlier file took. *)
Lemma relation_names_least (files : list str) (table_names : gset str)
    (i : nat) (file name : str) :
  files !! i = Some file ->
  relation_names table_names files !! i = Some name ->
  let stem := path_stem file in
  let taken : gset str :=
    list_to_set (take i (relation_names table_names files)) ∪ table_names in
  ((stem ∉ taken) /\ name = stem)
  \/ (stem ∈ taken
      /\ exists k,
           1 <= k /\ name = suffixed stem k
           /\ (suffixed stem k ∉ taken)
           /\ forall j, 1 <= j < k -> suffixed stem j ∈ taken).
Proof.
  revert table_names i. induction files as [|f files IH];
    intros table_names [|i]; simpl; try discriminate.
  - intros [= ->] [= <-].
    assert ((∅ ∪ table_names : gset str) = table_names) as ->
      by apply (left_id_L ∅ (∪)).
    exact (proj2 (bind_name_spec table_names file)).
  - intros Hfile Hname.
    specialize (IH _ _ Hfile Hname). cbv zeta in IH.
    match goal with
    | |- context [?a ∪ list_to_set ?l ∪ table_names] =>
        replace (a ∪ list_to_set l ∪ table_names)
          with (list_to_set l ∪ (a ∪ table_names))
    end; [exact IH|].
    apply set_eq. intros x. rewrite !elem_of_union. tauto.
Qed.

(** The set the tool ends with holds exactly the names bound. *)
Lemma register_views_names (files : list str) (conn conn' : Conn)
    (table_names names : gset str) :
  register_views conn table_names files = (Ok conn', names) ->
  names = list_to_set (relation_names table_names files) ∪ table_names.
Proof.
  revert conn table_names. induction files as [|file files IH];
    intros conn table_names; simpl.
  - intros [= _ <-]. apply set_eq. intros x.
    rewrite elem_of_union, elem_of_empty. tauto.
  - destruct (conn_execute conn _) as [[[]|e] conn1]; [|discriminate].
    intros H. apply IH in H. rewrite H. apply set_eq. intros x.
    rewrite !elem_of_union, !elem_of_list_to_set, elem_of_singleton.
    tauto.
Qed.

(** The loop creates one view per file, under the names of
    [relation_names], in input order. *)
Lemma register_views_statements (files : list str) (conn : Conn)
    (table_names : gset str) :
  (register_views conn table_names files).1
  = run_statements conn
      (zip_with create_view_sql (relation_names table_names files) files).
Proof.
  revert conn table_names. induction files as [|file files IH];
    intros conn table_names; simpl; [reflexivity|].
  destruct (conn_execute conn _) as [[[]|e] conn1]; [apply IH | reflexivity].
Qed.

Lemma occurrences_nonneg (stem : str) (seen : list str) :
  0 <= occurrences stem seen.
Proof. unfold occurrences, len. lia. Qed.

Lemma occurrences_app (s t : str) (seen : list str) :
  occurrences s (seen ++ [t])
  = occurrences s seen + (if bool_decide (t = s) then 1 else 0).
Proof.
  unfold occurrences, len. rewrite List.filter_app, length_app. simpl.
  destruct (bool_decide (t = s)); simpl; lia.
Qed.

Lemma occurrences_zero (s : str) (seen : list str) :
  occurrences s seen = 0 <-> s ∉ seen.
Proof.
  unfold occurrences, len. induction seen as [|x seen IH]; simpl.
  - split; [intros _ H; inversion H | reflexivity].
  - rewrite not_elem_of_cons. destruct (bool_decide_reflect (x = s)) as [->|Hne].
    + simpl. split; [lia | intros [? _]; congruence].
    + rewrite IH. split; [intros ?; split; congruence | tauto].
Qed.

Lemma bind_name_by_count (all seen : list str) (table_names : gset str)
    (file_path : str) :
  let stem := path_stem file_path in
  let k := occurrences stem seen in
  let name := if k =? 0 then stem else suffixed stem k in
  no_clash all -> (forall x, x ∈ seen -> x ∈ all) -> stem ∈ all ->
  bound_after seen table_names ->
  bind_name table_names file_path = name
  /\ bound_after (seen ++ [stem]) ({[ name ]} ∪ table_names).
Proof.
  intros stem k name Hclash Hseen Hstem Hinv.
  pose proof (occurrences_nonneg stem seen) as Hk. fold k in Hk.
  assert (forall j, 1 <= j -> suffixed stem j ∈ table_names <-> j < k)
    as Hsuffix.
  { intros j Hj. rewrite (Hinv (suffixed stem j)). split.
    - intros [Hin|(s & i & Hs & Hi & E)].
      + exfalso. exact (Hclash _ stem j (Hseen _ Hin) Hstem Hj eq_refl).
      + apply suffixed_split in E as [<- ->]; [|lia..]. apply Hi.
    - intros Hlt. right. exists stem, j. split; [|split; [lia|reflexivity]].
      apply dec_stable. intros Hout. apply occurrences_zero in Hout.
      fold k in Hout. lia. }
  assert (stem ∈ table_names <-> 0 < k) as Hplain.
  { rewrite (Hinv stem). split.
    - intros [Hin|(s & i & Hs & Hi & E)].
      + destruct (decide (k = 0)) as [E|]; [|lia].
        apply occurrences_zero in E. contradiction.
      + exfalso. exact (Hclash stem s i Hstem (Hseen _ Hs) ltac:(lia) E).
    - intros Hpos. left. apply dec_stable. intros Hout.
      apply occurrences_zero in Hout. fold k in Hout. lia. }
  assert (bind_name table_names file_path = name) as Hname.
  { unfold name.
    destruct (bind_name_spec table_names file_path)
      as [_ [[Hout E]|(Hin & m & Hm & E & Hfree & Hleast)]];
      repeat match goal with
        | H : context [path_stem file_path] |- _ =>
            progress change (path_stem file_path) with stem in H
        end.
    - rewrite E. destruct (k =? 0) eqn:Ek; [reflexivity|].
      apply Z.eqb_neq in Ek. exfalso. apply Hout, Hplain. lia.
    - apply Hplain in Hin. destruct (k =? 0) eqn:Ek;
        [apply Z.eqb_eq in Ek; lia|].
      rewrite E. f_equal.
      destruct (Z.lt_trichotomy m k) as [Hlt|[->|Hgt]]; [|reflexivity|].
      + exfalso. apply Hfree, Hsuffix; lia.
      + exfalso. specialize (Hleast k ltac:(lia)).
        apply Hsuffix in Hleast; lia. }
  split; [exact Hname|].
  intros x. rewrite elem_of_union, elem_of_singleton, (Hinv x), elem_of_app,
    list_elem_of_singleton.
  split.
  - intros [->|[Hin|(s & i & Hs & Hi & ->)]].
    + unfold name. destruct (k =? 0) eqn:Ek; [auto|].
      apply Z.eqb_neq in Ek. right. exists stem, k.
      rewrite elem_of_app, list_elem_of_singleton, occurrences_app,
        bool_decide_eq_true_2 by reflexivity.
      fold k. split; [auto|]. split; [lia | reflexivity].
    + auto.
    + right. exists s, i. rewrite elem_of_app, occurrences_app.
      split; [auto|]. split; [|reflexivity].
      destruct (bool_decide (stem = s)); lia.
  - intros [[Hin | ->] | (s & i & Hs & Hi & ->)].
    + auto.
    + unfold name. destruct (k =? 0) eqn:Ek; [auto|].
      apply Z.eqb_neq in Ek. right. left. apply dec_stable. intros Hout.
      apply occurrences_zero in Hout. fold k in Hout. lia.
    + rewrite occurrences_app in Hi.
      apply elem_of_app in Hs.
      destruct (bool_decide_reflect (stem = s)) as [<-|Hne].
      * fold k in Hi. destruct (decide (i = k)) as [->|Hik].
        -- left. unfold name. destruct (k =? 0) eqn:Ek; [|reflexivity].
           apply Z.eqb_eq in Ek. lia.
        -- right. right. exists stem, i. fold k.
           split; [|split; [lia|reflexivity]].
           apply dec_stable. intros Hout. apply occurrences_zero in Hout.
           fold k in Hout. lia.
      * right. right. exists s, i. split; [|split; [lia|reflexivity]].
        destruct Hs as [Hs|Hs]; [exact Hs|].
        apply list_elem_of_singleton in Hs. congruence.
Qed.

Lemma relation_names_by_count (all files seen : list str)
    (table_names : gset str) :
  no_clash all -> (forall x, x ∈ seen -> x ∈ all) ->
  (forall f, f ∈ files -> path_stem f ∈ all) ->
  bound_after seen table_names ->
  relation_names table_names files
  = names_by_count seen (map path_stem files).
Proof.
  intros Hclash. revert seen table_names.
  induction files as [|file files IH]; intros seen table_names Hseen Hfiles
    Hinv; simpl; [reflexivity|].
  destruct (bind_name_by_count all seen table_names file Hclash Hseen
              (Hfiles _ ltac:(left)) Hinv) as [Hname Hinv'].
  rewrite Hname. f_equal. apply IH.
  - intros x [Hx|Hx]%elem_of_app; [auto|].
    apply list_elem_of_singleton in Hx as ->. apply Hfiles. left.
  - intros f Hf. apply Hfiles. right. exact Hf.
  - exact Hinv'.
Qed.

(** C5 (amended): the loop creates the views of the files, in input
    order, under names that are as many as the files and pairwise
    distinct; each is the stem of its file when no earlier file was bound
    under it, and else that stem followed by an underscore and the least
    positive number that gives a name no earlier file was bound under;
    and when no stem is itself a stem followed by an underscore and a
    positive number, the name is the stem for the first file with that
    stem and the stem suffixed with _1, _2, ... for the later ones, in
    input order. *)
Theorem relation_names_unique_and_suffixed (files : list str) :
  let names := relation_names ∅ files in
  (forall conn,
     (register_views conn ∅ files).1
     = run_statements conn (zip_with create_view_sql names files))
  /\ length names = length files
  /\ NoDup names
  /\ (forall i file name,
        files !! i = Some file -> names !! i = Some name ->
        let stem := path_stem file in
        let earlier := take i names in
        ((stem ∉ earlier) /\ name = stem)
        \/ (stem ∈ earlier
            /\ exists k,
                 1 <= k /\ name = suffixed stem k
                 /\ (suffixed stem k ∉ earlier)
                 /\ forall j, 1 <= j < k -> suffixed stem j ∈ earlier))
  /\ (no_clash (map path_stem files) ->
      names = names_by_count [] (map path_stem files)).
Proof.
  intros names.
  split; [intros conn; apply register_views_statements|].
  split; [apply relation_names_length|].
  split; [apply relation_names_fresh|].
  split.
  { intros i file name Hfile Hname stem earlier.
    pose proof (relation_names_least files ∅ i file name Hfile Hname) as H.
    cbv zeta in H. fold names stem in H. fold earlier in H.
    assert (forall x, x ∈ (list_to_set earlier ∪ ∅ : gset str) <-> x ∈ earlier)
      as Hmem.
    { intros x. rewrite elem_of_union, elem_of_list_to_set, elem_of_empty.
      tauto. }
    destruct H as [[Hfree ->]|(Htaken & k & Hk & -> & Hfree & Hleast)].
    - left. rewrite Hmem in Hfree. auto.
    - right. rewrite Hmem in Htaken, Hfree. split; [exact Htaken|].
      exists k. split; [exact Hk|]. split; [reflexivity|].
      split; [exact Hfree|]. intros j Hj. apply Hmem, Hleast, Hj. }
  intros Hclash.
  apply (relation_names_by_count (map path_stem files)); [exact Hclash|..].
  - intros x Hx. inversion Hx.
  - intros f Hf. apply list_elem_of_fmap. eauto.
  - intros x. split; [intros Hx; exfalso; exact (not_elem_of_empty x Hx)|].
    intros [Hx|(s & _ & Hs & _)]; [inversion Hx | inversion Hs].
Qed.

End Names.

(** ** The query tool *)

Section QueryTool.
Context `{W : World}.

Lemma lower_message_mentions_table (p : str) :
  str_contains (lit "table") (lower (not_found_message p)) = true.
Proof.
  unfold not_found_message. rewrite !app_assoc, lower_app.
  apply str_contains_app_r. reflexivity.
Qed.

(** With the local [table_names] bound, the handler returns one of its
    three texts. *)
Lemma handler_returns_text (e : exn) (names : gset str) (query : str) :
  exists text,
    query_handler e (Some names) query = Ok text
    /\ (startswith text (lit "SQL syntax error: ") = true
        \/ startswith text (lit "Table reference error: ") = true
        \/ startswith text (lit "Query execution failed: ") = true).
Proof.
  unfold query_handler.
  destruct (_ || _); [|destruct (_ || _)]; eexists; (split; [reflexivity|]).
  - left. apply startswith_app.
  - right; left. apply startswith_app.
  - right; right. apply startswith_app.
Qed.

(** Before [table_names] is assigned, an error whose message mentions a
    table leaves the handler as an [UnboundLocalError]. *)
Lemma handler_unbound (e : exn) (query : str) :
  str_contains (lit "table") (lower (exn_msg e)) = true ->
  exists msg,
    query_handler e None query = Raise (mk_exn UnboundLocalError msg).
Proof.
  intros Htable. unfold query_handler. rewrite Htable, orb_true_r.
  destruct (_ || _); eexists; reflexivity.
Qed.

Lemma query_after_fetch (parquet_files : path_arg) (query : str) (limit : Z)
    (names : gset str) (columns : list str) (result : list (list pyval)) :
  fetches parquet_files query names columns result ->
  query_parquet_files parquet_files query limit
  = match result with
    | [] => Ok no_results_text
    | _ =>
        match render_rows columns result limit with
        | Ok text => Ok text
        | Raise e => query_handler e (Some names) query
        end
    end.
Proof.
  intros (files & conn & conn' & Hval & Hreg & Hexec & Hfetch & Hcols).
  unfold query_parquet_files, query_body.
  rewrite Hval, Hreg, Hexec. simpl. rewrite Hfetch. simpl.
  destruct result; [reflexivity|]. rewrite Hcols. reflexivity.
Qed.

Lemma render_rows_unfold (columns : list str) (result : list (list pyval))
    (limit : Z) :
  render_rows columns result limit
  = (let records := records_of columns result in
     let kept :=
       if limit <? len records then slice_to records limit else records in
     payload ← json_dumps false (VList kept);
     _enforce_token_limit payload (lit "query_parquet_files")).
Proof.
  unfold render_rows, records_of. simpl. rewrite map_map. reflexivity.
Qed.

Lemma not_the_no_results_text (text prefix : str) :
  startswith text prefix = true ->
  startswith no_results_text prefix = false ->
  text <> no_results_text.
Proof. apply startswith_differ. Qed.

(** Whatever the tool answers for fetched rows, it is not the text kept
    for an empty result. *)
Lemma rows_never_render_as_no_results (columns : list str)
    (result : list (list pyval)) (limit : Z) (names : gset str)
    (query : str) :
  match render_rows columns result limit with
  | Ok text => Ok text
  | Raise e => query_handler e (Some names) query
  end <> Ok no_results_text.
Proof.
  rewrite render_rows_unfold. cbv zeta.
  set (kept := if _ <? _ then _ else _).
  destruct (json_dumps false (VList kept)) as [payload|e] eqn:Hdump; simpl.
  - pose proof (encode_list_starts _ _ _ _ Hdump) as Hbracket.
    destruct (enforce_cases payload (lit "query_parquet_files"))
      as [[_ ->]|(_ & text & -> & _ & Hdiag)].
    + intros [= E]. revert E.
      apply (not_the_no_results_text _ _ Hbracket). reflexivity.
    + intros [= E]. revert E.
      apply (not_the_no_results_text _ _
               (diagnostic_starts_with_brace _ Hdiag)). reflexivity.
  - destruct (handler_returns_text e names query)
      as (text & -> & [H|[H|H]]);
      intros [= E]; revert E;
      apply (not_the_no_results_text _ _ H); reflexivity.
Qed.

(** C6: once the query has run, the tool answers with the "no results"
    text exactly when the fetch is empty; and that text is never the
    serialisation of a list, so it cannot be taken for a payload. *)
Theorem zero_rows_give_no_results_text (parquet_files : path_arg)
    (query : str) (limit : Z) (names : gset str) (columns : list str)
    (result : list (list pyval)) :
  fetches parquet_files query names columns result ->
  (query_parquet_files parquet_files query limit = Ok no_results_text
   <-> result = [])
  /\ (forall items text,
        json_dumps false (VList items) = Ok text -> text <> no_results_text).
Proof.
  intros Hfetch. rewrite (query_after_fetch _ _ _ _ _ _ Hfetch). split.
  - destruct result as [|row result]; [tauto|]. split; [|discriminate].
    intros H. exfalso. revert H. apply rows_never_render_as_no_results.
  - intros items text Hdump.
    apply (not_the_no_results_text _ _ (encode_list_starts _ _ _ _ Hdump)).
    reflexivity.
Qed.

Lemma slice_to_nonneg {A} (l : list A) (stop : Z) :
  0 <= stop -> slice_to l stop = firstn (Z.to_nat stop) l.
Proof.
  intros H. unfold slice_to. destruct (0 <=? stop) eqn:E; [reflexivity|].
  apply Z.leb_gt in E. lia.
Qed.

(** C4 (amended): for a cap that is not negative and a result with more
    rows than the cap, the records the tool hands to [json.dumps] are
    [cap] in number and are the records of the first [cap] rows of the
    result, in the order of the fetch.  The output is their serialisation
    when it fits the token budget; a diagnostic, which is not the
    serialisation of any list of records, when it does not; and, when
    [json.dumps] fails on them, one of the three texts of the error
    handler. *)
Theorem truncation_keeps_first_rows (parquet_files : path_arg) (query : str)
    (limit : Z) (names : gset str) (columns : list str)
    (result : list (list pyval)) :
  fetches parquet_files query names columns result ->
  0 <= limit -> limit < len result ->
  let kept := records_of columns (firstn (Z.to_nat limit) result) in
  len kept = limit
  /\ render_rows columns result limit
     = (payload ← json_dumps false (VList kept);
        _enforce_token_limit payload (lit "query_parquet_files"))
  /\ match json_dumps false (VList kept) with
     | Ok payload =>
         (_estimate_token_count payload <= TOKEN_LIMIT
          /\ query_parquet_files parquet_files query limit = Ok payload)
         \/ (TOKEN_LIMIT < _estimate_token_count payload
             /\ exists text,
                  query_parquet_files parquet_files query limit = Ok text
                  /\ is_diagnostic text
                  /\ forall records,
                       json_dumps false (VList records) <> Ok text)
     | Raise e =>
         exists text,
           query_parquet_files parquet_files query limit = Ok text
           /\ query_handler e (Some names) query = Ok text
           /\ (startswith text (lit "SQL syntax error: ") = true
               \/ startswith text (lit "Table reference error: ") = true
               \/ startswith text (lit "Query execution failed: ") = true)
     end.
Proof.
  intros Hfetch Hpos Hmore kept.
  assert (len (records_of columns result) = len result) as Hlen.
  { unfold len, records_of. rewrite length_map. reflexivity. }
  assert (render_rows columns result limit
          = (payload ← json_dumps false (VList kept);
             _enforce_token_limit payload (lit "query_parquet_files")))
    as Hrender.
  { rewrite render_rows_unfold. cbv zeta. rewrite Hlen.
    destruct (limit <? len result) eqn:E; [|apply Z.ltb_ge in E; lia].
    rewrite slice_to_nonneg by exact Hpos.
    unfold kept, records_of. rewrite firstn_map. reflexivity. }
  split; [|split; [exact Hrender|]].
  - unfold kept, records_of, len in *. rewrite length_map, length_firstn. lia.
  - rewrite (query_after_fetch _ _ _ _ _ _ Hfetch).
    destruct result as [|row result];
      [unfold len in Hmore; simpl in Hmore; lia|].
    rewrite Hrender.
    destruct (json_dumps false (VList kept)) as [payload|e];
      cbn [mbind outcome_bind].
    + destruct (enforce_cases payload (lit "query_parquet_files"))
        as [[Hfit ->]|(Hover & text & -> & _ & Hdiag)].
      * left. split; [exact Hfit | reflexivity].
      * right. split; [exact Hover|]. exists text.
        split; [reflexivity|]. split; [exact Hdiag|].
        intros records Hrecords.
        exact (brace_is_not_bracket _ _
                 (diagnostic_starts_with_brace _ Hdiag)
                 (encode_list_starts _ _ _ _ Hrecords) eq_refl).
    + destruct (handler_returns_text e names query) as (text & Htext & Hkind).
      exists text. rewrite Htext. auto.
Qed.

(** C2 (code bug): when an input file is missing, the query tool does not
    return a text: the handler reads [table_names], which is assigned
    only after the validation that has just failed, and the call ends
    with an UnboundLocalError. *)
Theorem query_raises_on_missing_file (parquet_files : path_arg) (query : str)
    (limit : Z) (p : str) :
  first_missing (as_list parquet_files) = Some p ->
  exists msg,
    query_parquet_files parquet_files query limit
    = Raise (mk_exn UnboundLocalError msg).
Proof.
  intros Hmiss.
  unfold query_parquet_files, query_body.
  rewrite (validate_missing _ _ Hmiss).
  apply handler_unbound. apply lower_message_mentions_table.
Qed.

(** X18: with every path accepted by one of the existence checks the
    query tool always returns a text: whatever the statements and the
    fetch do, no exception leaves it. *)
Theorem query_returns_text_when_files_exist (parquet_files : path_arg)
    (query : str) (limit : Z) :
  first_rejected (as_list parquet_files) = None ->
  exists text, query_parquet_files parquet_files query limit = Ok text.
Proof.
  intros Hall.
  unfold query_parquet_files, query_body.
  rewrite validate_rejected, Hall.
  destruct (register_views _ _ _) as [[conn|e] names].
  - destruct (let '(_, _) := conn_execute conn query in _) as [text|e];
      [eauto|].
    destruct (handler_returns_text e names query) as (text & -> & _). eauto.
  - destruct (handler_returns_text e names query) as (text & -> & _). eauto.
Qed.

(** The other two tools return a text on every input. *)
Theorem get_schema_returns_text (parquet_files : path_arg) :
  exists text, get_schema parquet_files = Ok text.
Proof. unfold get_schema. destruct (_ ≫= _); eauto. Qed.

Theorem list_tables_returns_text (directory : str) :
  exists text, list_tables_in_directory directory = Ok text.
Proof.
  unfold list_tables_in_directory.
  destruct (if negb _ then _ else _); eauto.
Qed.

End QueryTool.

(** ** More about the JSON encoder and the normalisation *)

Section Encoder.
Context `{W : World}.

Lemma json_encode_list (ensure_ascii : bool) (level : nat) (v : pyval)
    (items : list pyval) :
  json_encode ensure_ascii level (VList (v :: items))
  = (body ← encode_items ensure_ascii level true (v :: items);
     Ok (lit "[" ++ body ++ newline_indent level ++ lit "]")).
Proof. reflexivity. Qed.

Lemma json_encode_dict (ensure_ascii : bool) (level : nat)
    (entry : pyval * pyval) (items : list (pyval * pyval)) :
  json_encode ensure_ascii level (VDict (entry :: items))
  = (body ← encode_entries ensure_ascii level true (entry :: items);
     Ok (lit "{" ++ body ++ newline_indent level ++ lit "}")).
Proof. reflexivity. Qed.

Lemma json_key_ok (k : pyval) :
  (exists s, json_key k = Ok s) <-> json_scalar k = true.
Proof.
  destruct k as [|[]| | | | | | | |]; simpl; split;
    try (intros [s [=]]); try discriminate; eauto.
Qed.

Lemma json_encode_ok (ensure_ascii : bool) (obj : pyval) :
  forall level,
    (exists text, json_encode ensure_ascii level obj = Ok text)
    <-> made_of json_scalar obj = true.
Proof.
  induction obj as [| | | | | | | |items IH|items IH] using pyval_nested_ind;
    intros level.
  1-8: simpl; try destruct b;
    first [ by (split; [intros _; reflexivity | intros _; eexists; reflexivity])
          | by (split; [intros [? [=]] | discriminate]) ].
  - destruct items as [|v items]; [simpl; split; eauto|].
    rewrite json_encode_list. cbn [made_of].
    assert (forall first l, Forall (fun v => forall level,
               (exists text, json_encode ensure_ascii level v = Ok text)
               <-> made_of json_scalar v = true) l ->
             (exists body, encode_items ensure_ascii level first l = Ok body)
             <-> forallb (made_of json_scalar) l = true) as Hgo.
    { intros first l Hl. revert first.
      induction Hl as [|x l Hx _ IHl]; intros first; [simpl; split; eauto|].
      cbn [encode_items forallb].
      rewrite andb_true_iff, <- (Hx (S level)), <- (IHl false).
      destruct (json_encode ensure_ascii (S level) x) as [t|e]; simpl.
      - destruct (encode_items ensure_ascii level false l) as [rest|e]; simpl.
        + split; eauto.
        + split; [intros [? [=]]|intros [_ [? [=]]]].
      - split; [intros [? [=]]|intros [[? [=]] _]]. }
    rewrite <- (Hgo true (v :: items) IH).
    destruct (encode_items _ _ _ _) as [body|e]; simpl.
    + split; eauto.
    + split; intros [? [=]].
  - destruct items as [|kv items]; [simpl; split; eauto|].
    rewrite json_encode_dict. cbn [made_of].
    assert (forall first l, Forall (fun entry => forall level,
               (exists text, json_encode ensure_ascii level entry.2 = Ok text)
               <-> made_of json_scalar entry.2 = true) l ->
             (exists body, encode_entries ensure_ascii level first l = Ok body)
             <-> forallb (fun '(k, v) => json_scalar k && made_of json_scalar v) l = true) as Hgo.
    { intros first l Hl. revert first.
      induction Hl as [|[k x] l Hx _ IHl]; intros first; [simpl; split; eauto|].
      cbn [encode_entries forallb]. simpl in Hx.
      rewrite !andb_true_iff, <- (Hx (S level)), <- (IHl false), <- json_key_ok.
      destruct (json_key k) as [key|e]; simpl.
      - destruct (json_encode ensure_ascii (S level) x) as [t|e]; simpl.
        + destruct (encode_entries ensure_ascii level false l) as [rest|e]; simpl.
          * split; intros _; eauto 10.
          * split; [intros [? [=]]|intros [_ [? [=]]]].
        + split; [intros [? [=]]|intros [[_ [? [=]]] _]].
      - split; [intros [? [=]]|intros [[[? [=]] _] _]]. }
    rewrite <- (Hgo true (kv :: items) IH).
    destruct (encode_entries _ _ _ _) as [body|e]; simpl.
    + split; eauto.
    + split; intros [? [=]].
Qed.

(** With dates the only leaves the encoder does not know, its only
    failure is the one for a date. *)
Lemma json_encode_date_error (ensure_ascii : bool) (obj : pyval) :
  made_of (fun v => json_scalar v || is_datetime v || is_date v) obj = true ->
  forall level e,
    json_encode ensure_ascii level (_serialize_datetime obj) = Raise e ->
    e = date_error.
Proof.
  induction obj as [| | | | | | | |items IH|items IH] using pyval_nested_ind;
    intros Hmade level e.
  1-8: simpl; try destruct b; first [discriminate | by intros [= <-]].
  - cbn [_serialize_datetime]. destruct items as [|v items]; [discriminate|].
    change (map _serialize_datetime (v :: items))
      with (_serialize_datetime v :: map _serialize_datetime items).
    rewrite json_encode_list.
    assert (forall first l e,
              Forall (fun v =>
                made_of (fun v => json_scalar v || is_datetime v || is_date v)
                  v = true ->
                forall level e,
                  json_encode ensure_ascii level (_serialize_datetime v)
                  = Raise e -> e = date_error) l ->
              forallb (made_of (fun v => json_scalar v || is_datetime v
                                         || is_date v)) l = true ->
              encode_items ensure_ascii level first
                (map _serialize_datetime l) = Raise e ->
              e = date_error) as Hgo.
    { intros first l e' Hl. revert first.
      induction Hl as [|x l Hx _ IHl]; intros first; [discriminate|].
      cbn [forallb map encode_items]. intros [H1 H2]%andb_true_iff.
      destruct (json_encode ensure_ascii (S level) (_serialize_datetime x))
        as [t|e1] eqn:E1; simpl.
      - destruct (encode_items ensure_ascii level false
                    (map _serialize_datetime l)) as [rest|e2] eqn:E2;
          simpl; [discriminate|].
        intros [= <-]. exact (IHl false H2 E2).
      - intros [= <-]. exact (Hx H1 _ _ E1). }
    destruct (encode_items _ _ _ _) as [body|e1] eqn:E; simpl; [discriminate|].
    intros [= <-]. exact (Hgo _ _ _ IH Hmade E).
  - cbn [_serialize_datetime]. destruct items as [|[k0 v0] items];
      [discriminate|].
    change (map (fun '(key, value) => (key, _serialize_datetime value))
              ((k0, v0) :: items))
      with ((k0, _serialize_datetime v0)
            :: map (fun '(key, value) => (key, _serialize_datetime value))
                 items).
    rewrite json_encode_dict.
    assert (forall first l e,
              Forall (fun entry =>
                made_of (fun v => json_scalar v || is_datetime v || is_date v)
                  entry.2 = true ->
                forall level e,
                  json_encode ensure_ascii level (_serialize_datetime entry.2)
                  = Raise e -> e = date_error) l ->
              forallb (fun '(k, v) =>
                         json_scalar k
                         && made_of (fun v => json_scalar v || is_datetime v
                                              || is_date v) v) l = true ->
              encode_entries ensure_ascii level first
                (map (fun '(key, value) => (key, _serialize_datetime value)) l)
              = Raise e ->
              e = date_error) as Hgo.
    { intros first l e' Hl. revert first.
      induction Hl as [|[k x] l Hx _ IHl]; intros first; [discriminate|].
      cbn [forallb map encode_entries]. simpl in Hx.
      intros [[Hk H1]%andb_true_iff H2]%andb_true_iff.
      destruct (json_key k) as [key|e0] eqn:E0; simpl.
      - destruct (json_encode ensure_ascii (S level) (_serialize_datetime x))
          as [t|e1] eqn:E1; simpl.
        + destruct (encode_entries ensure_ascii level false _)
            as [rest|e2] eqn:E2; simpl; [discriminate|].
          intros [= <-]. exact (IHl false H2 E2).
        + intros [= <-]. exact (Hx H1 _ _ E1).
      - apply json_key_ok in Hk as [s Hs]. congruence. }
    destruct (encode_entries _ _ _ _) as [body|e1] eqn:E; simpl; [discriminate|].
    intros [= <-]. exact (Hgo _ _ _ IH Hmade E).
Qed.

End Encoder.

(** ** Dicts kept in insertion order *)

Lemma first_occurrences_spec (names seen : list str) :
  NoDup seen ->
  NoDup (first_occurrences seen names)
  /\ (forall n, n ∈ first_occurrences seen names <-> n ∈ seen \/ n ∈ names)
  /\ exists more, first_occurrences seen names = seen ++ more.
Proof.
  unfold first_occurrences. revert seen.
  induction names as [|x names IH]; intros seen Hnd; simpl.
  - split; [exact Hnd|]. split; [|exists []; rewrite app_nil_r; reflexivity].
    intros n. rewrite elem_of_nil. tauto.
  - destruct (bool_decide_reflect (x ∈ seen)) as [Hin|Hout].
    + destruct (IH seen Hnd) as (H1 & H2 & H3). split; [exact H1|].
      split; [|exact H3]. intros n. rewrite H2, elem_of_cons.
      split; [tauto|]. intros [?|[->|?]]; auto.
    + assert (NoDup (seen ++ [x])) as Hnd'.
      { apply NoDup_app. split; [exact Hnd|]. split; [|apply NoDup_singleton].
        intros y Hy ->%list_elem_of_singleton. contradiction. }
      destruct (IH _ Hnd') as (H1 & H2 & more & H3). split; [exact H1|].
      split.
      * intros n. rewrite H2, elem_of_app, list_elem_of_singleton, elem_of_cons.
        tauto.
      * exists (x :: more). rewrite H3, <- app_assoc. reflexivity.
Qed.

Lemma dict_set_keys (d : list (pyval * pyval)) (ks : list str) (k : str)
    (v : pyval) :
  map fst d = VStr <$> ks ->
  map fst (dict_set d k v)
  = VStr <$> (if bool_decide (k ∈ ks) then ks else ks ++ [k]).
Proof.
  revert ks. induction d as [|[k' v'] d IH]; intros [|k0 ks]; simpl;
    try discriminate.
  - intros _. reflexivity.
  - intros [= -> Hd]. simpl.
    destruct (bool_decide_reflect (k0 = k)) as [->|Hne].
    + rewrite bool_decide_eq_true_2 by left. simpl. rewrite Hd. reflexivity.
    + simpl. rewrite (IH ks Hd).
      destruct (bool_decide_reflect (k ∈ ks)) as [Hin|Hout].
      * rewrite bool_decide_eq_true_2 by (right; exact Hin). reflexivity.
      * rewrite bool_decide_eq_false_2; [reflexivity|].
        intros [->|?]%elem_of_cons; [congruence | contradiction].
Qed.

Lemma field_dict_set (d : list (pyval * pyval)) (k k' : str) (v : pyval) :
  field (VDict (dict_set d k v)) k'
  = if bool_decide (k' = k) then Some v else field (VDict d) k'.
Proof.
  unfold field. induction d as [|[k0 v0] d IH]; simpl.
  - destruct (decide (k' = k)) as [->|Hne].
    + rewrite !bool_decide_eq_true_2 by reflexivity. reflexivity.
    + rewrite !bool_decide_eq_false_2 by congruence. reflexivity.
  - destruct (key_is k k0) eqn:Ek; simpl.
    + destruct k0; try discriminate. simpl in Ek.
      apply bool_decide_eq_true in Ek as ->. simpl.
      destruct (decide (k' = k)) as [->|Hne].
      * rewrite !bool_decide_eq_true_2 by reflexivity. reflexivity.
      * rewrite !bool_decide_eq_false_2 by congruence. reflexivity.
    + destruct (key_is k' k0) eqn:Ek'; simpl.
      * destruct (decide (k' = k)) as [->|Hne]; [congruence|].
        rewrite bool_decide_eq_false_2 by exact Hne. reflexivity.
      * exact IH.
Qed.

Section Schemas.
Context `{W : World}.

Lemma describe_files_step (conn : Conn) (schemas : list (pyval * pyval))
    (file_path : str) (rest : list str) :
  describe_files conn schemas (file_path :: rest)
  = describe_files (describe_one conn file_path).2
      (dict_set schemas (path_name file_path) (describe_one conn file_path).1)
      rest.
Proof.
  unfold describe_one. simpl.
  destruct (conn_execute conn _) as [executed conn']. reflexivity.
Qed.

Lemma describe_files_keys (files : list str) (conn : Conn)
    (schemas : list (pyval * pyval)) (ks : list str) :
  map fst schemas = VStr <$> ks ->
  map fst (describe_files conn schemas files)
  = VStr <$> first_occurrences ks (path_name <$> files).
Proof.
  revert conn schemas ks. induction files as [|f files IH];
    intros conn schemas ks Hks; [exact Hks|].
  rewrite describe_files_step.
  rewrite (IH _ _ _ (dict_set_keys _ _ _ _ Hks)). reflexivity.
Qed.

Lemma describe_files_untouched (files : list str) (conn : Conn)
    (schemas : list (pyval * pyval)) (name : str) :
  name ∉ (path_name <$> files) ->
  field (VDict (describe_files conn schemas files)) name
  = field (VDict schemas) name.
Proof.
  revert conn schemas. induction files as [|f files IH];
    intros conn schemas Hout; [reflexivity|].
  rewrite describe_files_step. rewrite fmap_cons, not_elem_of_cons in Hout.
  destruct Hout as [Hne Hout].
  rewrite (IH _ _ Hout), field_dict_set, bool_decide_eq_false_2 by exact Hne.
  reflexivity.
Qed.

Lemma describe_files_last (before after : list str) (f : str) (conn : Conn)
    (schemas : list (pyval * pyval)) :
  path_name f ∉ (path_name <$> after) ->
  field (VDict (describe_files conn schemas (before ++ f :: after)))
    (path_name f)
  = Some (describe_one (connection_after conn before) f).1.
Proof.
  intros Hout. revert conn schemas.
  induction before as [|b before IH]; intros conn schemas.
  - simpl app. rewrite describe_files_step.
    rewrite (describe_files_untouched _ _ _ _ Hout), field_dict_set,
      bool_decide_eq_true_2 by reflexivity.
    reflexivity.
  - simpl app. rewrite describe_files_step. apply IH.
Qed.

End Schemas.

Lemma dict_zip_keys (columns : list str) (row : list pyval)
    (acc : list (pyval * pyval)) (ks : list str) :
  map fst acc = VStr <$> ks ->
  map fst (dict_zip columns row acc)
  = VStr <$> first_occurrences ks (take (length row) columns).
Proof.
  revert row acc ks. induction columns as [|c columns IH];
    intros [|v row] acc ks Hks; try exact Hks.
  simpl. apply IH. apply dict_set_keys, Hks.
Qed.

Lemma dict_zip_untouched (columns : list str) (row : list pyval)
    (acc : list (pyval * pyval)) (c : str) :
  c ∉ take (length row) columns ->
  field (VDict (dict_zip columns row acc)) c = field (VDict acc) c.
Proof.
  revert row acc. induction columns as [|c0 columns IH];
    intros [|v row] acc Hout; try reflexivity.
  simpl in Hout. rewrite not_elem_of_cons in Hout. destruct Hout as [Hne Hout].
  cbn [dict_zip]. rewrite (IH _ _ Hout), field_dict_set,
    bool_decide_eq_false_2 by exact Hne.
  reflexivity.
Qed.

Lemma dict_zip_last (columns : list str) (row : list pyval)
    (acc : list (pyval * pyval)) (i : nat) (c : str) (v : pyval) :
  columns !! i = Some c -> row !! i = Some v ->
  c ∉ drop (S i) (take (length row) columns) ->
  field (VDict (dict_zip columns row acc)) c = Some v.
Proof.
  revert row acc i. induction columns as [|c0 columns IH];
    intros [|v0 row] acc [|i]; try discriminate; cbn [dict_zip].
  - intros [= ->] [= ->] Hout. simpl in Hout.
    rewrite (dict_zip_untouched _ _ _ _ Hout), field_dict_set,
      bool_decide_eq_true_2 by reflexivity.
    reflexivity.
  - intros Hc Hv Hout. simpl in Hc, Hv, Hout. exact (IH _ _ _ Hc Hv Hout).
Qed.

Section Records.
Context `{W : World}.

Lemma field_serialize (items : list (pyval * pyval)) (c : str) :
  field (_serialize_datetime (VDict items)) c
  = _serialize_datetime <$> field (VDict items) c.
Proof.
  unfold field. simpl. induction items as [|[k v] items IH]; simpl;
    [reflexivity|].
  destruct (key_is c k); simpl; [reflexivity | exact IH].
Qed.

(** X10: the record of a fetched row has one field per distinct column
    name among the columns the row has values for, in the order in which
    the names first occur; a column name that occurs more than once keeps
    the place of its first occurrence and the normalised value of its
    last. *)
Theorem record_fields_by_column_name (columns : list str)
    (result : list (list pyval)) (n : nat) (row : list pyval) :
  result !! n = Some row ->
  exists items,
    records_of columns result !! n = Some (VDict items)
    /\ map fst items
       = VStr <$> first_occurrences [] (take (length row) columns)
    /\ (forall i c v,
          columns !! i = Some c -> row !! i = Some v ->
          c ∉ drop (S i) (take (length row) columns) ->
          field (VDict items) c = Some (_serialize_datetime v)).
Proof.
  intros Hrow. unfold records_of. rewrite list_lookup_fmap, Hrow. simpl.
  eexists. split; [reflexivity|]. split.
  - rewrite map_map. simpl.
    rewrite <- (dict_zip_keys columns row [] []) by reflexivity.
    apply map_ext. intros [k v]. reflexivity.
  - intros i c v Hc Hv Hout.
    change (field (_serialize_datetime (VDict (dict_zip columns row []))) c
            = Some (_serialize_datetime v)).
    rewrite field_serialize, (dict_zip_last _ _ _ _ _ _ Hc Hv Hout).
    reflexivity.
Qed.

End Records.

(** ** More about the estimate, the guard and the names *)

Section MoreEstimate.

(** X1: a text has an estimate of 0 exactly when it is empty; a text
    that is not longer than another has an estimate that is not greater;
    and the estimate of a concatenation is the sum of the two estimates
    or one less. *)
Theorem estimate_of_concatenation (a b : str) :
  (_estimate_token_count a = 0 <-> a = [])
  /\ (len a <= len b -> _estimate_token_count a <= _estimate_token_count b)
  /\ _estimate_token_count a + _estimate_token_count b - 1
     <= _estimate_token_count (a ++ b)
     <= _estimate_token_count a + _estimate_token_count b.
Proof.
  pose proof (estimate_bounds a) as Ha.
  pose proof (estimate_bounds b) as Hb.
  pose proof (estimate_bounds (a ++ b)) as Hab.
  assert (len (a ++ b) = len a + len b) as Hlen
    by (unfold len; rewrite length_app; lia).
  split; [|split].
  - split.
    + intros E. destruct a as [|c a]; [reflexivity|].
      unfold len in Ha. simpl in Ha. lia.
    + intros ->. reflexivity.
  - lia.
  - lia.
Qed.

End MoreEstimate.

Section MoreGuard.
Context `{W : World}.

Lemma diagnostic_is_not_the_payload (payload text : str) :
  TOKEN_LIMIT < _estimate_token_count payload ->
  _enforce_token_limit payload (lit "query_parquet_files") = Ok text ->
  text <> payload.
Proof.
  intros Hover Hres.
  destruct (enforce_cases payload (lit "query_parquet_files"))
    as [[Hfit _]|(_ & text' & Hres' & Hdump & Hdiag)]; [lia|].
  rewrite Hres in Hres'. injection Hres' as <-.
  pose proof (diagnostic_starts_with_brace _ Hdiag) as Hbrace.
  destruct (startswith payload (lit "[")) eqn:Hbracket.
  - exact (brace_is_not_bracket _ _ Hbrace Hbracket).
  - unfold current_size_of in Hdump. rewrite Hbracket in Hdump.
    simpl in Hdump. apply warning_text_length in Hdump.
    pose proof (estimate_bounds payload) as Hlen.
    pose proof (str_of_int_length (_estimate_token_count payload)
                  ltac:(unfold TOKEN_LIMIT in Hover; lia)) as Hdigits.
    unfold TOKEN_LIMIT in Hover. intros ->. lia.
Qed.

(** X2: called by the query tool, the guard hands a payload back as it
    is exactly when the payload has at most 15000 characters. *)
Theorem guard_threshold_in_characters (payload : str) :
  _enforce_token_limit payload (lit "query_parquet_files") = Ok payload
  <-> len payload <= 15000.
Proof.
  pose proof (estimate_bounds payload) as Hlen.
  split.
  - intros Hres.
    destruct (Z_le_gt_dec (_estimate_token_count payload) TOKEN_LIMIT)
      as [Hfit|Hover]; [unfold TOKEN_LIMIT in Hfit; lia|].
    exfalso.
    exact (diagnostic_is_not_the_payload payload payload ltac:(lia) Hres
             eq_refl).
  - intros Hshort. unfold _enforce_token_limit.
    destruct (_ <=? _) eqn:E; [reflexivity|].
    apply Z.leb_gt in E. unfold TOKEN_LIMIT in E. lia.
Qed.

Lemma hint_mentions_limit (l : Z) :
  str_contains (lit " (try LIMIT " ++ str_of_int l ++ lit ")")
    (join NL (suggestion_parts (Some l))) = true.
Proof.
  cbn [join suggestion_parts].
  match goal with
  | |- str_contains ?needle (?a ++ NL ++ (?b1 ++ ?b2 ++ ?b3 ++ ?n) ++ ?rest)
       = true =>
      replace (a ++ NL ++ (b1 ++ b2 ++ b3 ++ n) ++ rest)
        with ((a ++ NL ++ b1 ++ b2 ++ b3) ++ n ++ rest)
        by (rewrite <- !app_assoc; reflexivity)
  end.
  apply str_contains_middle.
Qed.

(** X3: when the guard answers an oversized payload with a text, that
    text serialises an object whose [context] field is the context passed
    in and whose [estimated_tokens] is the estimate of the payload, and
    the hint agrees with the [suggested_limit] field: it says
    "(try LIMIT n)" for a suggested limit n, and does not mention a limit
    to try when there is none. *)
Theorem diagnostic_hint_matches_suggested_limit (payload context text : str) :
  let estimate := _estimate_token_count payload in
  TOKEN_LIMIT < estimate ->
  _enforce_token_limit payload context = Ok text ->
  exists obj hint,
    json_dumps false obj = Ok text
    /\ field obj (lit "context") = Some (VStr context)
    /\ field obj (lit "estimated_tokens") = Some (VInt estimate)
    /\ field obj (lit "suggestion") = Some (VStr hint)
    /\ (forall l,
          field obj (lit "suggested_limit") = Some (VInt l) ->
          str_contains (lit " (try LIMIT " ++ str_of_int l ++ lit ")")
            hint = true)
    /\ (field obj (lit "suggested_limit") = Some VNone ->
        str_contains (lit "try LIMIT") hint = false).
Proof.
  intros estimate Hover Hres.
  destruct (enforce_cases payload context)
    as [[Hfit _]|(_ & text' & Hres' & Hdump & _)];
    [fold estimate in Hfit; lia|].
  rewrite Hres in Hres'. injection Hres' as <-.
  fold estimate in Hdump.
  set (sl := suggested_limit_of (current_size_of payload) estimate) in *.
  exists (warning context estimate (current_size_of payload) sl),
    (join NL (suggestion_parts sl)).
  split; [exact Hdump|]. repeat (split; [reflexivity|]).
  destruct sl as [l|]; split.
  - intros l' [= <-]. apply hint_mentions_limit.
  - discriminate.
  - discriminate.
  - intros _. vm_compute. reflexivity.
Qed.

End MoreGuard.

Section MoreNames.
Context `{W : World}.

Lemma bind_name_stem (table_names : gset str) (f f' : str) :
  path_stem f = path_stem f' ->
  bind_name table_names f = bind_name table_names f'.
Proof. unfold bind_name. intros ->. reflexivity. Qed.

Lemma relation_names_distinct_stems (files : list str)
    (table_names : gset str) :
  NoDup (map path_stem files) ->
  (forall f, f ∈ files -> path_stem f ∉ table_names) ->
  relation_names table_names files = map path_stem files.
Proof.
  revert table_names. induction files as [|f files IH];
    intros table_names Hnd Hfree; [reflexivity|].
  simpl in *. apply NoDup_cons in Hnd as [Hhead Hnd].
  assert (bind_name table_names f = path_stem f) as ->.
  { destruct (bind_name_spec table_names f) as [_ [[_ E]|[Hin _]]];
      [exact E|].
    exfalso. exact (Hfree f ltac:(left) Hin). }
  f_equal. apply IH; [exact Hnd|].
  intros g Hg [E%elem_of_singleton|Hin]%elem_of_union.
  - apply Hhead. rewrite <- E. apply list_elem_of_fmap. eauto.
  - exact (Hfree g ltac:(right; exact Hg) Hin).
Qed.

(** X16: the bound names are the file stems, in input order, exactly
    when the stems are pairwise distinct. *)
Theorem names_are_stems_iff_distinct (files : list str) :
  relation_names ∅ files = map path_stem files
  <-> NoDup (map path_stem files).
Proof.
  split.
  - intros <-. apply relation_names_fresh.
  - intros Hnd. apply relation_names_distinct_stems; [exact Hnd|].
    intros f _. apply not_elem_of_empty.
Qed.

Lemma relation_names_prefix (i : nat) (files files' : list str)
    (table_names : gset str) :
  take i (map path_stem files) = take i (map path_stem files') ->
  take i (relation_names table_names files)
  = take i (relation_names table_names files').
Proof.
  revert files files' table_names. induction i as [|i IH];
    intros [|f files] [|f' files'] table_names; simpl; try reflexivity;
    try discriminate.
  intros [= Estem Erest].
  rewrite (bind_name_stem table_names f f' Estem). f_equal.
  apply IH, Erest.
Qed.

(** X17: the name bound to a file depends on the stems of the files up
    to it and on nothing else: two lists of files whose first [i] stems
    agree get the same first [i] names, whatever the directories, the
    extensions and the files that follow. *)
Theorem names_depend_on_earlier_stems (i : nat) (files files' : list str) :
  take i (map path_stem files) = take i (map path_stem files') ->
  take i (relation_names ∅ files) = take i (relation_names ∅ files').
Proof. apply relation_names_prefix. Qed.

End MoreNames.

(** ** The listing tool and the schema tool *)

Section Listing.
Context `{W : World}.

Lemma dumps_names_ok (ensure_ascii : bool) (names : list str) :
  exists text, json_dumps ensure_ascii (VList (map VStr names)) = Ok text.
Proof.
  apply json_encode_ok. simpl. induction names; [reflexivity | assumption].
Qed.

Lemma encode_items_second (ensure_ascii : bool) (level : nat) (v : pyval)
    (items : list pyval) (text : str) :
  json_encode ensure_ascii level (VList (v :: items)) = Ok text ->
  exists rest, text = lit "[" ++ NL ++ rest.
Proof.
  rewrite json_encode_list. cbn [encode_items].
  destruct (json_encode ensure_ascii (S level) v) as [t|e]; simpl;
    [|discriminate].
  destruct (encode_items ensure_ascii level false items) as [rest|e]; simpl;
    [|discriminate].
  intros [= <-]. eexists. unfold newline_indent.
  rewrite <- !app_assoc. reflexivity.
Qed.

(** X5: for a directory that exists and can be listed, the listing
    tool returns the JSON array of the entries that end in ".parquet",
    in the order of [os.listdir] and with no other entry; the text starts
    with a bracket and is "[]" exactly when no entry has that ending. *)
Theorem listing_holds_the_parquet_names (directory : str) (names : list str) :
  os_path_exists directory = true ->
  os_listdir directory = Ok names ->
  let files := filter (fun f => endswith f (lit ".parquet") = true) names in
  exists text,
    list_tables_in_directory directory = Ok text
    /\ json_dumps true (VList (map VStr files)) = Ok text
    /\ startswith text (lit "[") = true
    /\ (text = lit "[]" <-> files = [])
    /\ sublist files names
    /\ (forall f, f ∈ files
                  <-> f ∈ names /\ endswith f (lit ".parquet") = true).
Proof.
  intros Hdir Hlist files.
  destruct (dumps_names_ok true files) as [text Htext].
  exists text. split; [|split; [exact Htext|]].
  - unfold list_tables_in_directory. rewrite Hdir, Hlist.
    cbn [negb mbind outcome_bind]. fold files. rewrite Htext. reflexivity.
  - split; [exact (encode_list_starts _ _ _ _ Htext)|].
    split; [|split].
    + split.
      * intros ->. destruct files as [|f files']; [reflexivity|].
        apply encode_items_second in Htext as [rest Htext].
        vm_compute in Htext. discriminate.
      * intros E. rewrite E in Htext. injection Htext as <-. reflexivity.
    + apply sublist_filter.
    + intros f. unfold files. rewrite list_elem_of_filter. tauto.
Qed.

(** X6: the listing tool always returns a text; the text starts with
    a bracket exactly when the directory exists and could be listed;
    for a missing directory it is the "does not exist" text that names
    the directory, and for a listing that raises it is "Error listing
    files: " followed by the text of the exception. *)
Theorem listing_error_texts (directory : str) :
  exists text,
    list_tables_in_directory directory = Ok text
    /\ (startswith text (lit "[") = true
        <-> os_path_exists directory = true
            /\ exists names, os_listdir directory = Ok names)
    /\ (os_path_exists directory = false ->
        text = lit "Error: Directory '" ++ directory
               ++ lit "' does not exist.")
    /\ (forall e,
          os_path_exists directory = true ->
          os_listdir directory = Raise e ->
          text = lit "Error listing files: " ++ exn_msg e).
Proof.
  unfold list_tables_in_directory.
  destruct (os_path_exists directory) eqn:Hdir; cbn [negb].
  - destruct (os_listdir directory) as [names|e] eqn:Hlist;
      cbn [mbind outcome_bind].
    + destruct (dumps_names_ok true
                  (filter (fun f => endswith f (lit ".parquet") = true) names))
        as [text Htext].
      rewrite Htext. exists text. split; [reflexivity|].
      split; [|split; [discriminate | intros e _ [=]]].
      split; [eauto|]. intros _. exact (encode_list_starts _ _ _ _ Htext).
    + eexists. split; [reflexivity|].
      split; [|split; [discriminate | intros e' _ [= <-]; reflexivity]].
      split; [discriminate | intros [_ [names [=]]]].
  - eexists. split; [reflexivity|].
    split; [|split; [reflexivity | discriminate]].
    split; [discriminate | intros [[=] _]].
Qed.

End Listing.

Section SchemaTool.
Context `{W : World}.

(** X7: when an input file is missing the schema tool, unlike the
    query tool, returns a text: "Error getting schema: " followed by the
    message of the validation, which names the first missing path. *)
Theorem schema_tool_reports_missing_file (parquet_files : path_arg) (p : str) :
  first_missing (as_list parquet_files) = Some p ->
  get_schema parquet_files
  = Ok (lit "Error getting schema: " ++ not_found_message p)
  /\ str_contains p (lit "Error getting schema: " ++ not_found_message p)
     = true.
Proof.
  intros Hmiss. unfold get_schema. rewrite (validate_missing _ _ Hmiss).
  split; [reflexivity|].
  apply str_contains_app_r. apply (proj1 (message_names_path p)).
Qed.

(** X8: the schema tool never raises: it returns a text that starts
    with an opening brace or with "Error getting schema: ", and the first
    only when every path was accepted by the validation, the text then
    being the serialisation of the entries of the files. *)
Theorem schema_tool_never_raises (parquet_files : path_arg) :
  exists text,
    get_schema parquet_files = Ok text
    /\ (startswith text (lit "{") = true
        \/ startswith text (lit "Error getting schema: ") = true)
    /\ (startswith text (lit "{") = true ->
        first_rejected (as_list parquet_files) = None
        /\ json_dumps true
             (VDict (describe_files duckdb_connect [] (as_list parquet_files)))
           = Ok text).
Proof.
  unfold get_schema. rewrite validate_rejected.
  destruct (first_rejected (as_list parquet_files)) as [p|];
    cbn [mbind outcome_bind].
  - destruct (pathlib_exists p) as [found|e]; cbn [mbind outcome_bind];
      (eexists; split; [reflexivity|];
       split; [right; apply startswith_app | discriminate]).
  - destruct (json_dumps true _) as [text|e] eqn:Hdump.
    + exists text. split; [reflexivity|].
      split; [left; exact (encode_dict_starts _ _ _ _ Hdump)|]. auto.
    + eexists. split; [reflexivity|]. split; [right; apply startswith_app|].
      discriminate.
Qed.

(** X9: with every file in place, the schema object has one entry per
    distinct file name, in the order in which the names first occur;
    files of the same name in different directories share an entry, which
    holds what the DESCRIBE of the last of them gave; a file whose
    DESCRIBE fails gets an error text as its entry and the other files
    keep theirs. *)
Theorem schema_entries_follow_file_names (parquet_files : path_arg) :
  first_rejected (as_list parquet_files) = None ->
  let files := as_list parquet_files in
  let schemas := describe_files duckdb_connect [] files in
  let names := first_occurrences [] (path_name <$> files) in
  get_schema parquet_files
  = match json_dumps true (VDict schemas) with
    | Ok text => Ok text
    | Raise e => Ok (lit "Error getting schema: " ++ exn_msg e)
    end
  /\ map fst schemas = VStr <$> names
  /\ NoDup names
  /\ (forall n, n ∈ names <-> n ∈ (path_name <$> files))
  /\ (forall before f after,
        files = before ++ f :: after ->
        path_name f ∉ (path_name <$> after) ->
        field (VDict schemas) (path_name f)
        = Some (describe_one (connection_after duckdb_connect before) f).1).
Proof.
  intros Hall files schemas names.
  destruct (first_occurrences_spec (path_name <$> files) [] (NoDup_nil_2))
    as (Hnd & Hin & _).
  split.
  { unfold get_schema. rewrite validate_rejected, Hall. reflexivity. }
  split; [apply (describe_files_keys files duckdb_connect [] []); reflexivity|].
  split; [exact Hnd|]. split.
  - intros n. unfold names. rewrite (Hin n), elem_of_nil. tauto.
  - intros before f after E Hout. unfold schemas. rewrite E.
    apply describe_files_last, Hout.
Qed.

End SchemaTool.

(** ** More about the query tool *)

Section MoreQuery.
Context `{W : World}.

Lemma records_of_length (columns : list str) (result : list (list pyval)) :
  len (records_of columns result) = len result.
Proof. unfold len, records_of. rewrite length_map. reflexivity. Qed.

Lemma kept_records_prefix (columns : list str) (result : list (list pyval))
    (limit : Z) :
  kept_records columns result limit
  = records_of columns
      (firstn (Z.to_nat (kept_count (len result) limit)) result).
Proof.
  unfold kept_records, kept_count. cbv zeta. rewrite records_of_length.
  assert (forall k, records_of columns (firstn k result)
                    = firstn k (records_of columns result)) as ->
    by (intros k; unfold records_of; symmetry; apply firstn_map).
  destruct (limit <? len result) eqn:E1.
  - apply Z.ltb_lt in E1. rewrite (proj2 (Z.leb_gt _ _)) by exact E1.
    unfold slice_to. rewrite records_of_length.
    destruct (0 <=? limit) eqn:E2; [reflexivity|].
    apply Z.leb_gt in E2. f_equal. lia.
  - apply Z.ltb_ge in E1. rewrite (proj2 (Z.leb_le _ _)) by exact E1.
    rewrite firstn_all2; [reflexivity|].
    unfold len. rewrite Nat2Z.id. unfold records_of.
    rewrite length_map. lia.
Qed.

Lemma query_after_rows (parquet_files : path_arg) (query : str) (limit : Z)
    (names : gset str) (columns : list str) (result : list (list pyval)) :
  fetches parquet_files query names columns result ->
  result <> [] ->
  query_parquet_files parquet_files query limit
  = match json_dumps false (VList (kept_records columns result limit)) with
    | Ok payload => _enforce_token_limit payload (lit "query_parquet_files")
    | Raise e => query_handler e (Some names) query
    end.
Proof.
  intros Hfetch Hrows. rewrite (query_after_fetch _ _ _ _ _ _ Hfetch).
  destruct result as [|row result]; [congruence|].
  rewrite render_rows_unfold. cbv zeta. fold (kept_records columns (row :: result) limit).
  destruct (json_dumps false _) as [payload|e]; [|reflexivity].
  cbn [mbind outcome_bind].
  destruct (enforce_cases payload (lit "query_parquet_files"))
    as [[_ ->]|(_ & text & -> & _)]; reflexivity.
Qed.

(** X11: for a result that is not empty the records serialised are
    those of a prefix of the fetched rows: all of them under a cap that
    is not below their number, [cap] of them under a smaller cap that is
    not negative, and all but the last [-cap] under a negative cap.  When
    none is kept (a cap of 0, or a negative cap that reaches the number
    of rows) the output is the text "[]". *)
Theorem cap_keeps_a_prefix (parquet_files : path_arg) (query : str)
    (limit : Z) (names : gset str) (columns : list str)
    (result : list (list pyval)) :
  fetches parquet_files query names columns result ->
  result <> [] ->
  let count := kept_count (len result) limit in
  let kept := records_of columns (firstn (Z.to_nat count) result) in
  0 <= count <= len result
  /\ len kept = count
  /\ query_parquet_files parquet_files query limit
     = match json_dumps false (VList kept) with
       | Ok payload => _enforce_token_limit payload (lit "query_parquet_files")
       | Raise e => query_handler e (Some names) query
       end
  /\ (count = 0 -> query_parquet_files parquet_files query limit = Ok (lit "[]")).
Proof.
  intros Hfetch Hrows count kept.
  assert (0 <= count <= len result) as Hcount.
  { unfold count, kept_count, len.
    destruct (_ <=? limit) eqn:E1; [lia|]. apply Z.leb_gt in E1.
    destruct (0 <=? limit) eqn:E2; [apply Z.leb_le in E2|]; unfold len in *; lia. }
  assert (query_parquet_files parquet_files query limit
          = match json_dumps false (VList kept) with
            | Ok payload =>
                _enforce_token_limit payload (lit "query_parquet_files")
            | Raise e => query_handler e (Some names) query
            end) as Hout.
  { rewrite (query_after_rows _ _ _ _ _ _ Hfetch Hrows), kept_records_prefix.
    reflexivity. }
  split; [exact Hcount|]. split; [|split; [exact Hout|]].
  - unfold kept. rewrite records_of_length. unfold len in *.
    rewrite length_firstn. lia.
  - intros Hzero. rewrite Hout. unfold kept. rewrite Hzero. reflexivity.
Qed.

Lemma app_excludes_bracket (prefix rest : str) :
  startswith prefix (lit "[") = false -> prefix <> [] ->
  startswith (prefix ++ rest) (lit "[") = false.
Proof.
  change (lit "[") with [91%N].
  destruct prefix as [|c prefix]; [congruence|]. intros H _. exact H.
Qed.

Lemma Ok_inj {A} (a b : A) : Ok a = Ok b -> a = b.
Proof. intros [= H]. exact H. Qed.

Lemma handler_text_is_no_array (e : exn) (names : option (gset str))
    (query text : str) :
  query_handler e names query = Ok text ->
  startswith text (lit "[") = false
  /\ (startswith text (lit "SQL syntax error: ") = true
      \/ startswith text (lit "Table reference error: ") = true
      \/ startswith text (lit "Query execution failed: ") = true).
Proof.
  unfold query_handler.
  destruct (_ || _); [|destruct (_ || _)].
  - destruct names as [names|]; [|discriminate]. intros <-%Ok_inj.
    split; [|left; apply startswith_app].
    apply app_excludes_bracket; [reflexivity | by vm_compute].
  - destruct names as [names|]; [|discriminate]. intros <-%Ok_inj.
    split; [|right; left; apply startswith_app].
    apply app_excludes_bracket; [reflexivity | by vm_compute].
  - intros <-%Ok_inj. split; [|right; right; apply startswith_app].
    apply app_excludes_bracket; [reflexivity | by vm_compute].
Qed.

(** X12: every text the query tool returns is the "no results" text,
    the serialisation of a list of records, a diagnostic, or one of the
    three error texts; and a returned text that starts with a bracket is
    the serialisation of a list of records, has at most 15000 characters
    and an estimate within the budget. *)
Theorem query_output_kinds (parquet_files : path_arg) (query : str)
    (limit : Z) (text : str) :
  query_parquet_files parquet_files query limit = Ok text ->
  (text = no_results_text
   \/ (exists records, json_dumps false (VList records) = Ok text)
   \/ is_diagnostic text
   \/ startswith text (lit "SQL syntax error: ") = true
   \/ startswith text (lit "Table reference error: ") = true
   \/ startswith text (lit "Query execution failed: ") = true)
  /\ (startswith text (lit "[") = true ->
      len text <= 15000
      /\ _estimate_token_count text <= TOKEN_LIMIT
      /\ exists records, json_dumps false (VList records) = Ok text).
Proof.
  unfold query_parquet_files.
  destruct (query_body parquet_files query limit) as [[text'|e] names] eqn:Hbody.
  - intros [= ->]. revert Hbody. unfold query_body.
    destruct (_validate_parquet_files parquet_files) as [files|e];
      [|discriminate].
    destruct (register_views _ _ _) as [[conn|e] names']; [|discriminate].
    destruct (conn_execute conn query) as [[[]|e] conn']; [|discriminate].
    cbn [mbind outcome_bind].
    destruct (conn_fetchall conn') as [[|row result]|e]; [| |discriminate].
    + intros [= <- _]. split; [left; reflexivity | discriminate].
    + cbn [mbind outcome_bind]. rewrite render_rows_unfold. cbv zeta.
      destruct (json_dumps false _) as [payload|e] eqn:Hdump; [|discriminate].
      cbn [mbind outcome_bind].
      destruct (enforce_cases payload (lit "query_parquet_files"))
        as [[Hfit ->]|(_ & diag & -> & _ & Hdiag)]; intros [= <- _].
      * split; [right; left; eauto|]. intros _.
        pose proof (estimate_bounds payload) as Hlen.
        unfold TOKEN_LIMIT in *. split; [lia|]. split; [lia | eauto].
      * split; [right; right; left; exact Hdiag|].
        intros Hbracket. exfalso.
        exact (brace_is_not_bracket _ _ (diagnostic_starts_with_brace _ Hdiag)
                 Hbracket eq_refl).
  - intros Hres. apply handler_text_is_no_array in Hres as [Hno Hkind].
    split; [right; right; right; exact Hkind|]. rewrite Hno. discriminate.
Qed.

Lemma str_contains_here (needle after : str) :
  str_contains needle (needle ++ after) = true.
Proof. rewrite str_contains_unfold, startswith_app. reflexivity. Qed.

Lemma str_contains_self (needle : str) : str_contains needle needle = true.
Proof.
  rewrite <- (app_nil_r needle) at 2. apply str_contains_here.
Qed.

(** A text holds one of the pieces it is put together from. *)
Ltac find_piece :=
  rewrite <- ?app_assoc;
  repeat first [ apply str_contains_here | apply str_contains_self
               | apply str_contains_app_r ].

(** X13: when the body of the query tool raises once [table_names] is
    bound, the tool returns a text that holds the message of the
    exception in full.  A message that mentions a syntax or parser error
    (in any letter case) gives the "SQL syntax error" text, with the
    query and the bound names; otherwise a message that mentions a
    catalog or a table gives the "Table reference error" text, with the
    bound names; any other message gives "Query execution failed: "
    followed by the message. *)
Theorem query_errors_keep_the_message (parquet_files : path_arg)
    (query : str) (limit : Z) (e : exn) (names : gset str) :
  query_body parquet_files query limit = (Raise e, Some names) ->
  let msg := exn_msg e in
  let syntax := str_contains (lit "syntax error") (lower msg)
                || str_contains (lit "parser error") (lower msg) in
  let reference := str_contains (lit "catalog") (lower msg)
                   || str_contains (lit "table") (lower msg) in
  exists text,
    query_parquet_files parquet_files query limit = Ok text
    /\ str_contains msg text = true
    /\ (syntax = true ->
        startswith text (lit "SQL syntax error: ") = true
        /\ str_contains query text = true
        /\ str_contains (repr_names names) text = true)
    /\ (syntax = false -> reference = true ->
        startswith text (lit "Table reference error: ") = true
        /\ str_contains (repr_names names) text = true)
    /\ (syntax = false -> reference = false ->
        text = lit "Query execution failed: " ++ msg).
Proof.
  intros Hbody msg syntax reference.
  unfold query_parquet_files. rewrite Hbody. unfold query_handler.
  fold msg. fold syntax. fold reference.
  destruct syntax; [|destruct reference]; cbn [read_local mbind outcome_bind];
    eexists; (split; [reflexivity|]).
  - split; [find_piece|].
    split; [|split; intros [=]]. intros _.
    split; [apply startswith_app|]. split; find_piece.
  - split; [find_piece|].
    split; [intros [=]|]. split; [|intros _ [=]]. intros _ _.
    split; [apply startswith_app | find_piece].
  - split; [find_piece|].
    split; [intros [=]|]. split; [intros _ [=] | reflexivity].
Qed.

Lemma register_views_failure (before after : list str) (f : str)
    (conn conn1 conn' : Conn) (table_names : gset str) (e : exn) :
  run_statements conn
    (zip_with create_view_sql (relation_names table_names before) before)
  = Ok conn1 ->
  let bound : gset str :=
    list_to_set (relation_names table_names before) ∪ table_names in
  conn_execute conn1 (create_view_sql (bind_name bound f) f)
  = (Raise e, conn') ->
  register_views conn table_names (before ++ f :: after)
  = (Raise e, {[ bind_name bound f ]} ∪ bound).
Proof.
  revert conn table_names. induction before as [|b before IH];
    intros conn table_names; simpl.
  - intros [= ->] Hfail.
    assert ((∅ ∪ table_names : gset str) = table_names) as E
      by apply (left_id_L ∅ (∪)).
    rewrite E in *. rewrite Hfail. reflexivity.
  - destruct (conn_execute conn _) as [[[]|e0] conn2]; [|discriminate].
    intros Hrun Hfail.
    set (first := bind_name table_names b) in *.
    set (later := relation_names ({[first]} ∪ table_names) before) in *.
    assert (list_to_set later ∪ ({[first]} ∪ table_names)
            = ({[first]} ∪ list_to_set later ∪ table_names : gset str)) as E.
    { apply set_eq. intros x. rewrite !elem_of_union. tauto. }
    rewrite <- E in *. exact (IH _ _ Hrun Hfail).
Qed.

(** X14: when the creation of a view fails, the tool answers with what
    the error handler makes of that failure, and the names handed to the
    handler hold the name of the failed view: it was added to the set
    before the statement ran, and no earlier file is bound under it. *)
Theorem failed_view_is_listed (parquet_files : path_arg) (query : str)
    (limit : Z) (before after : list str) (f : str) (conn conn' : Conn)
    (e : exn) :
  _validate_parquet_files parquet_files = Ok (before ++ f :: after) ->
  run_statements duckdb_connect
    (zip_with create_view_sql (relation_names ∅ before) before) = Ok conn ->
  let bound : gset str := list_to_set (relation_names ∅ before) in
  let name := bind_name bound f in
  conn_execute conn (create_view_sql name f) = (Raise e, conn') ->
  query_parquet_files parquet_files query limit
  = query_handler e (Some ({[ name ]} ∪ bound)) query
  /\ name ∈ ({[ name ]} ∪ bound)
  /\ (name ∉ bound).
Proof.
  intros Hval Hrun bound name Hfail.
  assert ((bound ∪ ∅ : gset str) = bound) as E by apply (right_id_L ∅ (∪)).
  split; [|split].
  - unfold query_parquet_files, query_body. rewrite Hval.
    rewrite (register_views_failure before after f _ conn conn' ∅ e Hrun);
      fold bound; rewrite E; [reflexivity | exact Hfail].
  - apply elem_of_union. left. apply elem_of_singleton. reflexivity.
  - apply bind_name_fresh.
Qed.

End MoreQuery.

Lemma made_of_dict_set (leaf : pyval -> bool) (d : list (pyval * pyval))
    (k : str) (v : pyval) :
  made_of leaf (VDict d) = true -> made_of leaf v = true ->
  made_of leaf (VDict (dict_set d k v)) = true.
Proof.
  intros Hd Hv. induction d as [|[k0 v0] d IH]; simpl in *.
  - rewrite Hv. reflexivity.
  - apply andb_true_iff in Hd as [[Hk0 Hv0]%andb_true_iff Hd].
    destruct (key_is k k0); simpl.
    + rewrite Hk0, Hv, Hd. reflexivity.
    + rewrite Hk0, Hv0. exact (IH Hd).
Qed.

Lemma made_of_dict_zip (leaf : pyval -> bool) (columns : list str)
    (row : list pyval) (acc : list (pyval * pyval)) :
  Forall (fun v => made_of leaf v = true) row ->
  made_of leaf (VDict acc) = true ->
  made_of leaf (VDict (dict_zip columns row acc)) = true.
Proof.
  revert row acc. induction columns as [|c columns IH];
    intros row acc Hrow Hacc; [exact Hacc|].
  destruct Hrow as [|v row Hv Hrow]; [exact Hacc|].
  cbn [dict_zip]. apply IH; [exact Hrow|].
  apply made_of_dict_set; assumption.
Qed.

Section Dates.
Context `{W : World}.

Lemma kept_records_normalised (columns : list str)
    (result : list (list pyval)) (limit : Z) :
  exists rows,
    VList (kept_records columns result limit)
    = _serialize_datetime
        (VList (map (fun row => VDict (dict_zip columns row [])) rows))
    /\ sublist rows result.
Proof.
  exists (firstn (Z.to_nat (kept_count (len result) limit)) result).
  split; [|apply sublist_take].
  rewrite kept_records_prefix. unfold records_of. cbn [_serialize_datetime].
  rewrite map_map. reflexivity.
Qed.

(** X15: for a result whose values are JSON scalars, timestamps and
    dates, the query tool serialises the kept records when none of them
    holds a date, and answers "Query execution failed: Object of type
    date is not JSON serializable" when one does. *)
Theorem date_values_fail_the_query (parquet_files : path_arg) (query : str)
    (limit : Z) (names : gset str) (columns : list str)
    (result : list (list pyval)) :
  fetches parquet_files query names columns result ->
  result <> [] ->
  Forall (Forall (fun v => made_of scalar_or_temporal v = true)) result ->
  let kept := kept_records columns result limit in
  (made_of json_scalar (VList kept) = true ->
   exists payload,
     json_dumps false (VList kept) = Ok payload
     /\ query_parquet_files parquet_files query limit
        = _enforce_token_limit payload (lit "query_parquet_files"))
  /\ (made_of json_scalar (VList kept) = false ->
      query_parquet_files parquet_files query limit = Ok date_failure_text).
Proof.
  intros Hfetch Hrows Hvalues kept.
  pose proof (query_after_rows _ _ limit _ _ _ Hfetch Hrows) as Hout.
  fold kept in Hout.
  pose proof (json_encode_ok false (VList kept) 0) as Hok.
  split.
  - intros Hmade. apply Hok in Hmade as [payload Hdump].
    exists payload. split; [exact Hdump|].
    unfold json_dumps in Hout. rewrite Hdump in Hout. exact Hout.
  - intros Hmade.
    unfold json_dumps in Hout.
    destruct (json_encode false 0 (VList kept)) as [payload|e] eqn:Hdump.
    + rewrite (proj1 Hok) in Hmade by eauto. discriminate.
    + rewrite Hout.
      destruct (kept_records_normalised columns result limit)
        as (rows & Ekept & Hsub).
      fold kept in Ekept. rewrite Ekept in Hdump.
      apply json_encode_date_error in Hdump as ->; [reflexivity|].
      cbn [made_of]. apply forallb_forall. intros record Hrecord.
      apply in_map_iff in Hrecord as (row & <- & Hrow).
      apply made_of_dict_zip; [|reflexivity].
      rewrite List.Forall_forall in Hvalues. apply Hvalues.
      apply list_elem_of_In. apply list_elem_of_In in Hrow.
      exact (elem_of_sublist _ _ _ Hrow Hsub).
Qed.

End Dates.

(** ** The interactive loop of agent.py *)

Section InteractiveLoop.

Variable agent : list str -> str -> reply.

Lemma loop_at_end_of_input (fuel : nat) (s : session) :
  left s = false ->
  interactive_loop agent fuel [] s
  = mk_session
      (printed s ++ concat (repeat (prompt ++ error_line eof_text) fuel))
      (sent s) false.
Proof.
  revert s. induction fuel as [|fuel IH]; intros [out history l] Hl;
    simpl in Hl; subst l.
  - cbn [interactive_loop repeat concat printed sent]. rewrite app_nil_r.
    reflexivity.
  - cbn [interactive_loop printed sent]. rewrite IH by reflexivity.
    cbn [printed sent repeat concat]. rewrite <- !app_assoc. reflexivity.
Qed.

Lemma loop_left_iff (fuel : nat) (keys : list key) (s : session) :
  left s = false ->
  left (interactive_loop agent fuel keys s) = true
  <-> exists n, stop_round agent keys (sent s) = Some n /\ (n < fuel)%nat.
Proof.
  revert keys s. induction fuel as [|fuel IH]; intros keys [out history l] Hl;
    simpl in Hl; subst l.
  - cbn [interactive_loop left]. split; [discriminate|].
    intros (n & _ & Hn). lia.
  - cbn [interactive_loop printed sent].
    destruct keys as [|[user_input|] keys]; cbn [stop_round].
    + rewrite loop_at_end_of_input by reflexivity. cbn [left].
      split; [discriminate | intros (n & [=] & _)].
    + destruct (is_exit_word user_input).
      * cbn [left]. split; [|reflexivity]. intros _. exists O. split; [reflexivity|lia].
      * destruct (agent history user_input) as [content|error|].
        -- rewrite IH by reflexivity. cbn [sent].
           destruct (stop_round agent keys (history ++ [user_input])) as [m|];
             cbn [fmap option_fmap option_map].
           ++ split; intros (n & [= <-] & Hn); eexists; (split; [reflexivity|lia]).
           ++ split; intros (n & [=] & _).
        -- rewrite IH by reflexivity. cbn [sent].
           destruct (stop_round agent keys (history ++ [user_input])) as [m|];
             cbn [fmap option_fmap option_map].
           ++ split; intros (n & [= <-] & Hn); eexists; (split; [reflexivity|lia]).
           ++ split; intros (n & [=] & _).
        -- cbn [left]. split; [|reflexivity]. intros _. exists O.
           split; [reflexivity|lia].
    + cbn [left]. split; [|reflexivity]. intros _. exists O.
      split; [reflexivity|lia].
Qed.

(** X19: the interactive loop is left exactly when the keyboard or the
    agent tells it to: by Ctrl-C at the prompt, by the word exit or quit
    in any letter case, or by Ctrl-C while the agent is called.  Nothing
    else ends it: an error of the agent is printed and the next line is
    read. *)
Theorem loop_is_left_only_when_told (fuel : nat) (keys : list key) :
  let s := interactive_loop agent fuel keys (mk_session [] [] false) in
  (left s = true
   <-> exists n, stop_round agent keys [] = Some n /\ (n < fuel)%nat)
  /\ (stop_round agent keys [] = None -> left s = false).
Proof.
  intros s.
  pose proof (loop_left_iff fuel keys (mk_session [] [] false) eq_refl) as H.
  fold s in H. cbn [sent] in H. split; [exact H|].
  intros Hnone. apply not_true_is_false. intros E.
  apply H in E as (n & Hn & _). congruence.
Qed.

(** X20: at the end of the input the interactive loop does not stop:
    every round writes the prompt and the text of the EOFError, and
    reads again. *)
Theorem end_of_input_never_ends_the_loop (fuel : nat) :
  interactive_loop agent fuel [] (mk_session [] [] false)
  = mk_session (concat (repeat (prompt ++ error_line eof_text) fuel)) []
      false.
Proof. exact (loop_at_end_of_input fuel (mk_session [] [] false) eq_refl). Qed.

End InteractiveLoop.

(** ** The tools at work in the example world

    Every statement below is about the tools in the world [Example.world]:
    the theorems above at concrete inputs, and the inputs at which a
    sentence of the specification fails as it is worded. *)

Import Example.

Lemma events_fetch :
  fetches events_file q_events ({[ lit "events" ]} ∪ ∅)
    events_columns events_rows.
Proof.
  exists [lit "data/events.parquet"], (mk_conn [] []),
    (mk_conn events_rows events_columns).
  evaluate.
Qed.

Lemma nothing_fetch :
  fetches events_file q_nothing ({[ lit "events" ]} ∪ ∅)
    events_columns [].
Proof.
  exists [lit "data/events.parquet"], (mk_conn [] []),
    (mk_conn [] events_columns).
  evaluate.
Qed.

(** C2, at a missing file. *)
Lemma missing_file_example :
  exists msg,
    query_parquet_files missing_file q_events default_limit
    = Raise (mk_exn UnboundLocalError msg).
Proof.
  exact (query_raises_on_missing_file missing_file q_events default_limit
           (lit "data/missing.parquet") eq_refl).
Defined.

(** C6, at a query that matches nothing. *)
Lemma no_rows_example :
  query_parquet_files events_file q_nothing default_limit
  = Ok no_results_text.
Proof.
  exact (proj2 (proj1 (zero_rows_give_no_results_text events_file
                         q_nothing default_limit _ _ _ nothing_fetch))
           eq_refl).
Defined.

(** C4, at three rows and a cap of two: the output is the serialisation
    of the first two records. *)
Lemma truncation_example :
  exists payload,
    json_dumps false
      (VList (firstn 2 (records_of events_columns events_rows))) = Ok payload
    /\ query_parquet_files events_file q_events 2 = Ok payload.
Proof.
  destruct (proj2 (proj2 (truncation_keeps_first_rows events_file q_events
                            2 _ _ _ events_fetch ltac:(lia)
                            ltac:(vm_compute; reflexivity))))
    as [[_ Hout]|[Hover _]].
  - refine (ex_intro _ _ (conj _ Hout)). vm_compute. reflexivity.
  - exfalso. vm_compute in Hover. discriminate.
Defined.

(** C4 as stated fails: sixty wide rows under the default cap of 50 come
    back as a diagnostic, which holds no record at all; and under a cap
    of -1 three rows come back as two. *)
Lemma oversized_result_is_replaced :
  default_limit < len wide_rows
  /\ (exists text,
        query_parquet_files wide_file q_wide default_limit = Ok text
        /\ is_diagnostic text
        /\ forall records, json_dumps false (VList records) <> Ok text)
  /\ -1 < len events_rows
  /\ query_parquet_files events_file q_events (-1)
     = json_dumps false
         (VList (firstn 2 (records_of events_columns
                             events_rows))).
Proof.
  split; [vm_compute; reflexivity|]. split.
  - destruct (dumps_warning_ok tool_context 7298 (Some 50) (Some 27))
      as [text Htext].
    assert (is_diagnostic text) as Hdiag.
    { apply (warning_is_diagnostic tool_context 7298 (Some 50) (Some 27));
        [reflexivity | exact Htext]. }
    exists text. split; [|split; [exact Hdiag|]].
    + rewrite <- Htext. vm_compute. reflexivity.
    + intros records Hrecords.
      exact (brace_is_not_bracket _ _ (diagnostic_starts_with_brace _ Hdiag)
               (encode_list_starts _ _ _ _ Hrecords) eq_refl).
  - evaluate.
Qed.

(** C3, at 77 rows in 28875 characters. *)
Lemma suggested_limit_example :
  exists text obj,
    _enforce_token_limit seventy_seven tool_context = Ok text
    /\ json_dumps false obj = Ok text
    /\ field obj (lit "rows_returned") = Some (VInt 77)
    /\ field obj (lit "suggested_limit") = Some (VInt 31).
Proof.
  destruct (suggested_limit_in_floating_point seventy_seven
              tool_context ltac:(vm_compute; reflexivity))
    as (text & obj & H1 & H2 & H3 & H4 & _).
  exists text, obj. split; [exact H1|]. split; [exact H2|].
  split; [rewrite H3 | rewrite H4]; vm_compute; reflexivity.
Defined.

(** C3 as stated fails: a query returns 77 rows whose serialisation has
    an estimate of 9625; the exact value of the formula is 32, and the
    diagnostic suggests 31. *)
Lemma suggested_limit_rounds_below_exact :
  len long_rows = 77
  /\ query_parquet_files long_file q_long 100
     = json_dumps false (warning tool_context 9625 (Some 77) (Some 31))
  /\ field (warning tool_context 9625 (Some 77) (Some 31))
       (lit "suggested_limit") = Some (VInt 31)
  /\ exact_suggested_limit 77 9625 = 32.
Proof. evaluate. Qed.

(** A payload that parses as an empty list has a known row count, 0, and
    gets no suggestion. *)
Lemma empty_list_gets_no_suggestion :
  current_size_of padded_empty = Some 0
  /\ _enforce_token_limit padded_empty tool_context
     = json_dumps false (warning tool_context 5001 (Some 0) None).
Proof. evaluate. Qed.

Lemma three_events_no_clash : no_clash (map path_stem three_events).
Proof.
  intros s t k Hs Ht Hk E.
  assert (forall x, x ∈ map path_stem three_events -> x = lit "events")
    as Hstem.
  { intros x Hx. vm_compute in Hx.
    repeat (apply elem_of_cons in Hx as [->|Hx]; [reflexivity|]).
    inversion Hx. }
  apply Hstem in Hs, Ht. subst s t.
  apply (f_equal (@length _)) in E. unfold suffixed in E.
  rewrite !length_app in E. vm_compute in E. lia.
Qed.

(** C5, at three files that share the stem [events]. *)
Lemma three_events_example :
  relation_names ∅ three_events
  = [ lit "events"; lit "events_1"; lit "events_2" ].
Proof.
  rewrite (proj2 (proj2 (proj2 (proj2 (relation_names_unique_and_suffixed
                                         three_events))))
             three_events_no_clash).
  vm_compute. reflexivity.
Defined.

(** C5 as stated fails: after two files named [events], a file named
    [events_1], the only one with that stem, is bound as [events_1_1]. *)
Lemma suffixed_stem_is_renamed :
  let files := [ lit "events.parquet"; lit "events.parquet";
                 lit "events_1.parquet" ] in
  map path_stem files = [ lit "events"; lit "events"; lit "events_1" ]
  /\ relation_names ∅ files
     = [ lit "events"; lit "events_1"; lit "events_1_1" ]
  /\ names_by_count [] (map path_stem files)
     = [ lit "events"; lit "events_1"; lit "events_1" ].
Proof. evaluate. Qed.

(** C8 as stated fails: of two missing paths the message names the first
    and not the second; and a path whose name is too long for the file
    system, which the first check misses and the second cannot look at,
    is rejected with the OSError of the second check, which is no
    FileNotFoundError and names no discovery tool. *)
Lemma only_first_missing_path_is_named :
  let a := lit "data/a.parquet" in
  let b := lit "data/b.parquet" in
  b ∈ as_list (PathList [a; b])
  /\ os_path_exists b = false /\ pathlib_exists b = Ok false
  /\ _validate_parquet_files (PathList [a; b])
     = Raise (mk_exn FileNotFoundError (not_found_message a))
  /\ str_contains b (not_found_message a) = false
  /\ os_path_exists (World := Logs.world) Logs.long_name = false
  /\ _validate_parquet_files (W := Logs.world) (OnePath Logs.long_name)
     = Raise Logs.name_too_long
  /\ exn_cls Logs.name_too_long = OSError
  /\ str_contains (lit "list_tables_in_directory")
       (exn_msg Logs.name_too_long) = false.
Proof.
  intros a b. split; [right; left|].
  evaluate.
Qed.

(** C9 as stated fails: a date inside a row stays a date, and the
    serialisation of the row then fails; a datetime used as a dict key
    stays a datetime. *)
Lemma dates_and_keys_are_not_converted :
  let day := VDate (mk_date 2025 7 23) in
  let rows := VList [ VDict [ (VStr (lit "id"), VInt 1);
                              (VStr (lit "day"), day) ] ] in
  let keyed := VDict [ (VDatetime noon, VInt 1) ] in
  value_at [0; 1]%nat rows = Some day
  /\ is_temporal day = true
  /\ value_at [0; 1]%nat (_serialize_datetime rows) = Some day
  /\ json_dumps false (_serialize_datetime rows)
     = Raise (not_serializable day)
  /\ is_temporal (VDatetime noon) = true
  /\ _serialize_datetime keyed = keyed
  /\ query_parquet_files events_file q_days default_limit
     = Ok (lit "Query execution failed: Object of type date is not JSON serializable").
Proof. evaluate. Qed.

(** C10 as stated fails: the output of the normalisation can hold values
    of a temporal type.  A date in a list, a time as the value of a dict
    and a datetime as the key of a dict are all in the output as they
    were in the input. *)
Lemma temporal_values_survive_normalisation :
  let day := VDate (mk_date 2025 7 23) in
  let hour := VOther (lit "time") 0 in
  let stamp := VDatetime noon in
  let obj := VList [ day; VDict [ (VStr (lit "at"), hour); (stamp, VInt 1) ] ] in
  is_temporal day = true /\ is_temporal hour = true
  /\ is_temporal stamp = true
  /\ _serialize_datetime obj = obj
  /\ value_at [0]%nat (_serialize_datetime obj) = Some day
  /\ value_at [1; 0]%nat (_serialize_datetime obj) = Some hour
  /\ match value_at [1]%nat (_serialize_datetime obj) with
     | Some (VDict items) => map fst items = [ VStr (lit "at"); stamp ]
     | _ => False
     end.
Proof. evaluate. Qed.

(** C1, at a payload within the budget. *)
Lemma guard_example :
  _enforce_token_limit (lit "[]") tool_context = Ok (lit "[]").
Proof. reflexivity. Qed.

(** ** The further properties at work *)

Lemma listing_example :
  exists text,
    list_tables_in_directory (lit "data") = Ok text
    /\ json_dumps true
         (VList [ VStr (lit "events.parquet"); VStr (lit "long.parquet");
                  VStr (lit "wide.parquet") ]) = Ok text.
Proof.
  destruct (listing_holds_the_parquet_names (W := Example.world) (lit "data")
              [ lit "events.parquet"; lit "long.parquet"; lit "notes.txt";
                lit "wide.parquet" ] eq_refl eq_refl)
    as (text & Hout & Hdump & _).
  exists text. split; [exact Hout | exact Hdump].
Defined.

Lemma schema_of_missing_file_example :
  get_schema missing_file
  = Ok (lit "Error getting schema: "
        ++ not_found_message (lit "data/missing.parquet")).
Proof.
  exact (proj1 (schema_tool_reports_missing_file missing_file
                  (lit "data/missing.parquet") eq_refl)).
Defined.

Lemma same_file_name_example :
  map fst (describe_files (W := Logs.world) (duckdb_connect (World := Logs.world)) []
             (as_list Logs.two_spans))
  = [ VStr (lit "spans.parquet") ]
  /\ field (VDict (describe_files (W := Logs.world)
                     (duckdb_connect (World := Logs.world)) []
                     (as_list Logs.two_spans)))
       (lit "spans.parquet")
     = Some (VList
               [ VDict [ (VStr (lit "column_name"), VStr (lit "trace_id"));
                         (VStr (lit "column_type"), VStr (lit "VARCHAR")) ];
                 VDict [ (VStr (lit "column_name"), VStr (lit "duration"));
                         (VStr (lit "column_type"), VStr (lit "BIGINT")) ] ]).
Proof.
  destruct (schema_entries_follow_file_names (W := Logs.world) Logs.two_spans
              eq_refl) as (_ & Hkeys & _ & _ & Hlast).
  split; [exact Hkeys|].
  exact (Hlast [lit "logs/a/spans.parquet"] (lit "logs/b/spans.parquet") []
           eq_refl ltac:(vm_compute; apply not_elem_of_nil)).
Defined.

Lemma hint_example :
  exists text obj hint,
    _enforce_token_limit seventy_seven tool_context = Ok text
    /\ json_dumps false obj = Ok text
    /\ field obj (lit "context") = Some (VStr tool_context)
    /\ field obj (lit "estimated_tokens") = Some (VInt 9625)
    /\ field obj (lit "suggestion") = Some (VStr hint).
Proof.
  destruct (_enforce_token_limit seventy_seven tool_context)
    as [text|e] eqn:Hres; [|vm_compute in Hres; discriminate].
  destruct (diagnostic_hint_matches_suggested_limit (W := Example.world)
              seventy_seven tool_context text
              ltac:(vm_compute; reflexivity) Hres)
    as (obj & hint & H1 & H2 & H3 & H4 & _).
  exists text, obj, hint. split; [reflexivity|]. split; [exact H1|].
  split; [exact H2|]. split; [exact H3 | exact H4].
Defined.

Lemma duplicate_column_example :
  let columns := [ lit "id"; lit "name"; lit "id" ] in
  let row := [ VInt 1; VStr (lit "x"); VInt 2 ] in
  exists items,
    records_of columns [row] !! 0%nat = Some (VDict items)
    /\ map fst items = [ VStr (lit "id"); VStr (lit "name") ]
    /\ field (VDict items) (lit "id") = Some (VInt 2).
Proof.
  intros columns row.
  destruct (record_fields_by_column_name (W := Example.world) columns [row]
              0 row eq_refl) as (items & Hrecord & Hkeys & Hlast).
  exists items. split; [exact Hrecord|]. split; [exact Hkeys|].
  exact (Hlast 2%nat (lit "id") (VInt 2) eq_refl eq_refl
           ltac:(vm_compute; apply not_elem_of_nil)).
Defined.

Lemma cap_of_zero_example :
  query_parquet_files events_file q_events 0 = Ok (lit "[]").
Proof.
  exact (proj2 (proj2 (proj2 (cap_keeps_a_prefix events_file q_events 0
                                _ _ _ events_fetch ltac:(discriminate))))
           eq_refl).
Defined.

Lemma array_output_example :
  exists text,
    query_parquet_files events_file q_events default_limit = Ok text
    /\ startswith text (lit "[") = true
    /\ len text <= 15000.
Proof.
  destruct (query_parquet_files events_file q_events default_limit)
    as [text|e] eqn:Hout; [|vm_compute in Hout; discriminate].
  assert (startswith text (lit "[") = true) as Hbracket
    by (vm_compute in Hout; injection Hout as <-; reflexivity).
  exists text. split; [reflexivity|]. split; [exact Hbracket|].
  exact (proj1 (proj2 (query_output_kinds events_file q_events default_limit
                         text Hout) Hbracket)).
Defined.

Lemma typo_body :
  query_body events_file q_typo default_limit
  = (Raise typo_error, Some ({[ lit "events" ]} ∪ ∅)).
Proof. vm_compute. reflexivity. Qed.

Lemma syntax_error_example :
  exists text,
    query_parquet_files events_file q_typo default_limit = Ok text
    /\ startswith text (lit "SQL syntax error: ") = true
    /\ str_contains q_typo text = true
    /\ str_contains (lit "['events']") text = true.
Proof.
  destruct (query_errors_keep_the_message (W := Example.world) events_file
              q_typo default_limit typo_error ({[ lit "events" ]} ∪ ∅)
              typo_body)
    as (text & Hout & _ & Hsyntax & _).
  exists text. split; [exact Hout|].
  assert (str_contains (lit "syntax error") (lower (exn_msg typo_error))
          || str_contains (lit "parser error") (lower (exn_msg typo_error))
          = true) as Hclass by (vm_compute; reflexivity).
  destruct (Hsyntax Hclass) as (H1 & H2 & H3).
  split; [exact H1|]. split; [exact H2|]. exact H3.
Defined.

Lemma hyphen_example :
  query_parquet_files (W := Logs.world) Logs.spans_and_hyphen q_events
    default_limit
  = query_handler (W := Logs.world) Logs.hyphen_error
      (Some ({[ lit "my-file" ]} ∪ list_to_set [ lit "spans" ])) q_events
  /\ str_contains (lit "'my-file'")
       (repr_names (World := Logs.world)
          ({[ lit "my-file" ]} ∪ list_to_set [ lit "spans" ])) = true.
Proof.
  split; [|vm_compute; reflexivity].
  exact (proj1 (failed_view_is_listed (W := Logs.world) Logs.spans_and_hyphen
                  q_events default_limit [lit "logs/a/spans.parquet"] []
                  (lit "logs/my-file.parquet") (mk_conn [] []) (mk_conn [] [])
                  Logs.hyphen_error ltac:(vm_compute; reflexivity)
                  ltac:(vm_compute; reflexivity)
                  ltac:(vm_compute; reflexivity))).
Defined.

Lemma days_fetch :
  fetches events_file q_days ({[ lit "events" ]} ∪ ∅) days_columns days_rows.
Proof.
  exists [lit "data/events.parquet"], (mk_conn [] []),
    (mk_conn days_rows days_columns).
  evaluate.
Qed.

Lemma date_column_example :
  query_parquet_files events_file q_days default_limit = Ok date_failure_text.
Proof.
  refine (proj2 (date_values_fail_the_query events_file q_days default_limit
                   _ _ _ days_fetch ltac:(discriminate) _) eq_refl).
  repeat constructor.
Defined.

Lemma earlier_stems_example :
  take 2 (relation_names ∅
            [ lit "x/events.csv"; lit "events"; lit "other.parquet" ])
  = [ lit "events"; lit "events_1" ].
Proof.
  rewrite (names_depend_on_earlier_stems (W := Example.world) 2
             [ lit "x/events.csv"; lit "events"; lit "other.parquet" ]
             three_events eq_refl).
  vm_compute. reflexivity.
Defined.

Lemma existing_file_example :
  exists text, query_parquet_files events_file q_typo default_limit = Ok text.
Proof.
  exact (query_returns_text_when_files_exist events_file q_typo default_limit
           eq_refl).
Defined.
